(** * CameraRoom.tsx: the heuristic QR detector [jsQR]

    A shallow embedding of the function [jsQR] of
    [client/src/page/cameraRoom/CameraRoom.tsx] (lines 5-105) and of its two
    local helpers [findPatterns] and [isFinderPattern], followed by the
    properties of the detection engine proved about it.

    Conventions of the embedding.
    - Image dimensions, pixel coordinates, counters and the clock reading are
      integers ([Z]); the JavaScript numbers involved are integers (or halves
      of integers, see [extractBits]) far below 2^53, where double arithmetic
      is exact.
    - The luminance formula is the one place where the source computes with
      proper doubles; it is embedded with the kernel's binary64 floats.
    - A typed array is a [list Z]; a read outside the array, or at an index
      that is not an integer, yields [undefined], embedded as [None], and
      every comparison of [undefined] with a number is false.
    - [for] loops become the list of the values their variable takes
      ([for_values]), folded or mapped over by the loop body. *)

From Stdlib Require Import ZArith List Bool Lia String Ascii Sorted.
From Stdlib Require Import Floats.
From Stdlib Require Import QArith.
Import ListNotations.
Open Scope string_scope.
Open Scope Z_scope.

(** ** Loops *)

(** The values taken by [v] in [for (let v = start; v < stop; v += step)]. *)
Fixpoint for_values_from (fuel : nat) (start stop step : Z) : list Z :=
  match fuel with
  | O => []
  | S fuel' =>
      if start <? stop
      then start :: for_values_from fuel' (start + step) stop step
      else []
  end.

Definition for_values (start stop step : Z) : list Z :=
  for_values_from (Z.to_nat (stop - start)) start stop step.

(** ** Typed arrays *)

(** [arr[idx]] for an integer [idx]. *)
Definition read (arr : list Z) (idx : Z) : option Z :=
  if idx <? 0 then None else nth_error arr (Z.to_nat idx).

(** [arr[idx2 / 2]], where the index is given doubled: an odd [idx2] stands
    for an index with a fractional part one half, which names no element. *)
Definition read_half (arr : list Z) (idx2 : Z) : option Z :=
  if Z.even idx2 then read arr (idx2 / 2) else None.

(** [arr[n] = v]; a typed array ignores a write outside its bounds. *)
Fixpoint store (arr : list Z) (n : nat) (v : Z) : list Z :=
  match arr, n with
  | [], _ => []
  | _ :: rest, O => v :: rest
  | a :: rest, S n' => a :: store rest n' v
  end.

(** [pixel < thresh] and [pixel >= thresh], where [pixel] may be [undefined]. *)
Definition js_lt (pixel : option Z) (thresh : Z) : bool :=
  match pixel with Some v => v <? thresh | None => false end.

Definition js_ge (pixel : option Z) (thresh : Z) : bool :=
  match pixel with Some v => v >=? thresh | None => false end.

(** ** Grayscale conversion (lines 7-11) *)

(** The number held by [data[i]]: a byte, or [NaN] once [undefined] enters
    the arithmetic. *)
Definition to_number (sample : option Z) : float :=
  match sample with
  | Some v => PrimFloat.of_uint63 (Uint63.of_Z v)
  | None => PrimFloat.nan
  end.

(** [0.299 * r + 0.587 * g + 0.114 * b] in double precision, evaluated left
    to right as JavaScript does; each literal denotes the double nearest to
    it, as it does in the source. *)
#[local] Set Warnings "-inexact-float".
Definition luma (r g b : float) : float :=
  (0.299 * r + 0.587 * g + 0.114 * b)%float.

(** The result of [Math.round]: [NaN], an infinity, or an integer (the sign
    of a zero is not kept, the array stores 0 for both). *)
Inductive rounded : Type :=
  | RNaN
  | RInf (negative : bool)
  | RInt (z : Z).

(** [Math.round(f)]: the integer nearest to [f], a tie going up; on a finite
    double [m * 2^e] this is [floor (m * 2^e + 1/2)]. *)
Definition Math_round (f : float) : rounded :=
  match Prim2SF f with
  | S754_nan => RNaN
  | S754_infinity s => RInf s
  | S754_zero _ => RInt 0
  | S754_finite s m e =>
      let n := if s then Z.neg m else Z.pos m in
      RInt (if 0 <=? e then n * 2 ^ e
            else Z.shiftr (2 * n + 2 ^ (- e)) (1 - e))
  end.

(** The conversion applied by a store into a [Uint8ClampedArray]. *)
Definition ToUint8Clamp (v : rounded) : Z :=
  match v with
  | RNaN => 0
  | RInf negative => if negative then 0 else 255
  | RInt z => Z.max 0 (Z.min 255 z)
  end.

(** The value of [gray] in the loop body at loop index [i]. *)
Definition gray_at (data : list Z) (i : Z) : rounded :=
  Math_round (luma (to_number (read data i))
                   (to_number (read data (i + 1)))
                   (to_number (read data (i + 2)))).

(** The buffer [grayscale] after the conversion loop. *)
Definition grayscale (data : list Z) (width height : Z) : list Z :=
  fold_left
    (fun gs i => store gs (Z.to_nat (i / 4)) (ToUint8Clamp (gray_at data i)))
    (for_values 0 (Z.of_nat (List.length data)) 4)
    (repeat 0 (Z.to_nat (width * height))).

(** ** Finder patterns (lines 14-58) *)

Definition minQRSize : Z := 21.

(** The objects [{ x, y }] pushed by [findPatterns]. *)
Record Pattern : Type := mkPattern { x_of : Z; y_of : Z }.

Definition isEdge (dx dy : Z) : bool :=
  (dx =? 0) || (dx =? 6) || (dy =? 0) || (dy =? 6).

Definition isInner (dx dy : Z) : bool :=
  ((dx >=? 2) && (dx <=? 4)) && ((dy >=? 2) && (dy <=? 4)).

(** The body of the inner loop of [isFinderPattern], acting on the pair
    [(darkCount, lightCount)]. *)
Definition count_cell (gray : list Z) (startX startY w thresh : Z)
    (dy : Z) (counts : Z * Z) (dx : Z) : Z * Z :=
  let idx := (startY + dy) * w + (startX + dx) in
  let pixel := read gray idx in
  let '(darkCount, lightCount) := counts in
  if (isEdge dx dy || isInner dx dy) && js_lt pixel thresh
  then (darkCount + 1, lightCount)
  else if negb (isEdge dx dy) && negb (isInner dx dy) && js_ge pixel thresh
  then (darkCount, lightCount + 1)
  else counts.

(** The test of line 34. *)
Definition out_of_window (startX startY w h : Z) : bool :=
  let size := 7 in
  (startX + size >=? w) || (startY + size >=? h).

(** Lines 36-57: the two nested loops over the 7x7 window and the verdict. *)
Definition classify (gray : list Z) (startX startY w thresh : Z) : bool :=
  let size := 7 in
  let '(darkCount, lightCount) :=
    fold_left
      (fun counts dy =>
         fold_left (count_cell gray startX startY w thresh dy)
                   (for_values 0 size 1) counts)
      (for_values 0 size 1) (0, 0) in
  (darkCount >=? 20) && (lightCount >=? 8).

Definition isFinderPattern (gray : list Z) (startX startY w h thresh : Z)
    : bool :=
  if out_of_window startX startY w h then false
  else classify gray startX startY w thresh.

Definition findPatterns (grayscale : list Z) (width height threshold : Z)
    : list Pattern :=
  flat_map
    (fun y =>
       flat_map
         (fun x =>
            if isFinderPattern grayscale x y width height threshold
            then [mkPattern x y] else [])
         (for_values 0 (width - minQRSize) 3))
    (for_values 0 (height - minQRSize) 3).

(** ** Strings *)

(** The first [n] characters of [s], and [s] without them. *)
Fixpoint take (n : nat) (s : string) : string :=
  match n, s with
  | S n', String c s' => String c (take n' s')
  | _, _ => ""
  end.

Fixpoint drop (n : nat) (s : string) : string :=
  match n, s with
  | S n', String _ s' => drop n' s'
  | _, _ => s
  end.

(** [s.slice(-k)]: the last [k] characters of [s], all of [s] when it has
    fewer. *)
Definition slice_last (k : nat) (s : string) : string :=
  drop (String.length s - k) s.

(** [s.match(/.{1,8}/g) || []] for a string [s] without line terminators:
    the greedy quantifier takes eight characters while eight are left, and
    what is left at the end, if anything, makes a shorter last match. *)
Fixpoint match_1_8_from (fuel : nat) (s : string) : list string :=
  match fuel, s with
  | S fuel', String _ _ => take 8 s :: match_1_8_from fuel' (drop 8 s)
  | _, _ => []
  end.

Definition match_1_8 (s : string) : list string :=
  match_1_8_from (String.length s) s.

(** [parseInt(s, 2)] for a string [s] that starts with neither white space
    nor a sign: the value of the longest prefix of binary digits, [NaN]
    ([None]) when that prefix is empty. *)
Definition bit_of (c : ascii) : option Z :=
  if Ascii.eqb c "0" then Some 0
  else if Ascii.eqb c "1" then Some 1
  else None.

Fixpoint parse_bits (acc : Z) (s : string) : Z :=
  match s with
  | String c s' =>
      match bit_of c with
      | Some b => parse_bits (2 * acc + b) s'
      | None => acc
      end
  | EmptyString => acc
  end.

Definition parseInt2 (s : string) : option Z :=
  match s with
  | String c _ =>
      match bit_of c with
      | Some _ => Some (parse_bits 0 s)
      | None => None
      end
  | EmptyString => None
  end.

(** [String.fromCharCode(charCode)] for a code below 256. *)
Definition fromCharCode (charCode : Z) : string :=
  String (ascii_of_N (Z.to_N charCode)) "".

(** The character class [[a-zA-Z0-9\-_]]. *)
Definition in_class (c : ascii) : bool :=
  let n := Z.of_N (N_of_ascii c) in
  ((97 <=? n) && (n <=? 122))      (* a-z *)
  || ((65 <=? n) && (n <=? 90))    (* A-Z *)
  || ((48 <=? n) && (n <=? 57))    (* 0-9 *)
  || (n =? 45)                     (* - *)
  || (n =? 95).                    (* _ *)

Fixpoint all_in_class (s : string) : bool :=
  match s with
  | EmptyString => true
  | String c s' => in_class c && all_in_class s'
  end.

(** [/^[a-zA-Z0-9\-_]+$/.test(s)]. *)
Definition regex_test (s : string) : bool :=
  match s with
  | EmptyString => false
  | String _ _ => all_in_class s
  end.

(** [n.toString()] for an integer [n]: its decimal digits, after a minus
    sign when it is negative. *)
Definition digit_char (d : Z) : ascii := ascii_of_N (Z.to_N (48 + d)).

Fixpoint digits_onto (fuel : nat) (n : Z) (acc : string) : string :=
  let acc' := String (digit_char (n mod 10)) acc in
  match fuel with
  | O => acc'
  | S fuel' => if n <? 10 then acc' else digits_onto fuel' (n / 10) acc'
  end.

Definition digits (n : Z) : string :=
  digits_onto (Z.to_nat (Z.log2 n)) n "".

Definition toString (n : Z) : string :=
  if n <? 0 then String "-" (digits (- n)) else digits n.

(** ** Data extraction and the result (lines 60-104) *)

Record DetectionResult : Type := mkResult { data : string }.

(** Lines 64-78: the walk over the centre of the image.  [extractSize / 2]
    is half an odd number when [extractSize] is odd, so [y] and [x] are then
    not integers; the loop variables are kept doubled ([y2] is twice [y],
    [x2] twice [x], the step 2 becomes 4), and so is the index
    ([y2 * width + x2] is twice [y * width + x]).  [walk_step] is the body
    of the inner loop. *)
Definition walk_step (grayscale : list Z) (width height threshold : Z)
    (y2 : Z) (dataString : string) (x2 : Z) : string :=
  if (x2 >=? 0) && (x2 <? 2 * width) && (y2 >=? 0) && (y2 <? 2 * height)
  then
    let idx2 := y2 * width + x2 in
    dataString
      ++ (if js_lt (read_half grayscale idx2) threshold then "1" else "0")
  else dataString.

Definition extractBits (grayscale : list Z) (width height threshold : Z)
    : string :=
  let centerX := width / 2 in
  let centerY := height / 2 in
  let extractSize := Z.min 100 (Z.min width height / 10) in
  fold_left
    (fun dataString y2 =>
       fold_left
         (walk_step grayscale width height threshold y2)
         (for_values (2 * centerX - extractSize) (2 * centerX + extractSize) 4)
         dataString)
    (for_values (2 * centerY - extractSize) (2 * centerY + extractSize) 4)
    "".

(** Lines 81-89. *)
Definition decodeChunks (chunks : list string) : string :=
  fold_left
    (fun result chunk =>
       match parseInt2 chunk with
       | Some charCode =>
           if (charCode >=? 32) && (charCode <=? 126)
           then result ++ fromCharCode charCode
           else result
       | None => result
       end)
    (firstn 20 chunks) "".

(** The candidate string [result] of line 82 once the loop has run. *)
Definition candidateString (grayscale : list Z) (width height threshold : Z)
    : string :=
  decodeChunks (match_1_8 (extractBits grayscale width height threshold)).

(** Lines 97-99. *)
Definition formatPattern (p : Pattern) : string :=
  toString (x_of p) ++ "-" ++ toString (y_of p).

Definition patternHash (patterns : list Pattern) : string :=
  String.concat "_" (map formatPattern (firstn 3 patterns)).

(** Line 101, [now] being the value of [Date.now()]. *)
Definition fallbackId (patterns : list Pattern) (now : Z) : string :=
  "QR_" ++ patternHash patterns ++ "_" ++ slice_last 6 (toString now).

(** Lines 60-104: [jsQR] from the point where [grayscale] is filled, with
    the threshold of line 14 as a parameter. *)
Definition detect (grayscale : list Z) (width height threshold now : Z)
    : option DetectionResult :=
  let patterns := findPatterns grayscale width height threshold in
  if (3 <=? List.length patterns)%nat then
    let result := candidateString grayscale width height threshold in
    if (3 <? String.length result)%nat && regex_test result
    then Some (mkResult result)
    else Some (mkResult (fallbackId patterns now))
  else None.

(** What a call of [jsQR] does: [new Uint8ClampedArray(width * height)]
    throws a [RangeError] on a negative length, otherwise the call returns
    [null] or a result. *)
Inductive outcome : Type :=
  | RangeError
  | Returned (r : option DetectionResult).

Definition jsQR (rgba : list Z) (width height now : Z) : outcome :=
  if width * height <? 0 then RangeError
  else
    let threshold := 128 in
    Returned (detect (grayscale rgba width height) width height threshold now).

(** ** The vocabulary of the specification *)

(** A byte of a pixel buffer. *)
Definition is_byte (v : Z) : Prop := 0 <= v <= 255.

(** The 49 cells [(row, column)] of a 7x7 window and its three regions: the
    border ring (row or column 0 or 6), the inner core (rows and columns 2
    to 4) and the cells in neither, the middle ring. *)
Definition window_cells : list (Z * Z) :=
  list_prod [0; 1; 2; 3; 4; 5; 6] [0; 1; 2; 3; 4; 5; 6].

Definition on_border (cell : Z * Z) : bool :=
  let '(row, col) := cell in
  (row =? 0) || (row =? 6) || (col =? 0) || (col =? 6).

Definition in_core (cell : Z * Z) : bool :=
  let '(row, col) := cell in
  (2 <=? row) && (row <=? 4) && (2 <=? col) && (col <=? 4).

Definition border_ring : list (Z * Z) := filter on_border window_cells.

Definition inner_core : list (Z * Z) := filter in_core window_cells.

Definition middle_ring : list (Z * Z) :=
  filter (fun cell => negb (on_border cell) && negb (in_core cell))
         window_cells.

(** The sample of a [w]-wide row-major buffer under a cell of the window
    whose top-left corner is [(x, y)]. *)
Definition luminance (gray : list Z) (w x y : Z) (cell : Z * Z) : Z :=
  let '(row, col) := cell in
  nth (Z.to_nat ((y + row) * w + (x + col))) gray 0.

Definition dark_count (gray : list Z) (w thresh x y : Z) : nat :=
  List.length
    (filter (fun cell => luminance gray w x y cell <? thresh)
            (border_ring ++ inner_core)%list).

Definition light_count (gray : list Z) (w thresh x y : Z) : nat :=
  List.length
    (filter (fun cell => thresh <=? luminance gray w x y cell) middle_ring).

(** The classification rule of the specification. *)
Definition finder_rule (gray : list Z) (w thresh x y : Z) : Prop :=
  (20 <= dark_count gray w thresh x y)%nat
  /\ (8 <= light_count gray w thresh x y)%nat.

(** The points of the coarse grid along an axis of extent [n]. *)
Definition on_grid (n v : Z) : Prop :=
  v mod 3 = 0 /\ 0 <= v < n - 21.

(** Row-major order on window origins. *)
Definition row_major_lt (p q : Pattern) : Prop :=
  y_of p < y_of q \/ (y_of p = y_of q /\ x_of p < x_of q).

(** A 7x7 window at [(x, y)] lies inside a [w] by [h] buffer. *)
Definition window_fits (x y w h : Z) : Prop :=
  0 <= x /\ 0 <= y /\ x + 7 <= w /\ y + 7 <= h.

(** The chunks of exactly eight characters of [s], in order; what is left
    after the last of them is dropped. *)
Fixpoint full_chunks_from (fuel : nat) (s : string) : list string :=
  match fuel with
  | O => []
  | S fuel' =>
      if (8 <=? String.length s)%nat
      then take 8 s :: full_chunks_from fuel' (drop 8 s)
      else []
  end.

Definition full_chunks (s : string) : list string :=
  full_chunks_from (String.length s) s.

(** The number written in base 2 by a string of ["0"] and ["1"]. *)
Fixpoint binary_value (s : string) : Z :=
  match s with
  | EmptyString => 0
  | String c s' =>
      (if Ascii.eqb c "1" then 2 ^ Z.of_nat (String.length s') else 0)
      + binary_value s'
  end.

(** What a chunk contributes: its character when its value is printable
    ASCII, nothing otherwise. *)
Definition chunk_char (chunk : string) : string :=
  let v := binary_value chunk in
  if (32 <=? v) && (v <=? 126) then String (ascii_of_N (Z.to_N v)) "" else "".

(** Steps 3 and 4 of the extractor as the specification words them. *)
Definition decode_spec (bits : string) : string :=
  String.concat "" (map chunk_char (firstn 20 (full_chunks bits))).

(** The decimal digit of weight [10^k] of [n], and the last six of them. *)
Definition decimal_digit (n k : Z) : ascii :=
  digit_char ((n / 10 ^ k) mod 10).

Definition last_six_digits (n : Z) : string :=
  String (decimal_digit n 5) (String (decimal_digit n 4)
    (String (decimal_digit n 3) (String (decimal_digit n 2)
      (String (decimal_digit n 1) (String (decimal_digit n 0) ""))))).

Definition is_digit (c : ascii) : bool :=
  let n := Z.of_N (N_of_ascii c) in (48 <=? n) && (n <=? 57).

Fixpoint all_digits (s : string) : bool :=
  match s with
  | EmptyString => true
  | String c s' => is_digit c && all_digits s'
  end.

(** The bytes, for the exhaustive check of the luminance formula. *)
Definition all_bytes : list Z := map Z.of_nat (seq 0 256).

(** A double that is not negative and is below 255.5. *)
Definition rounds_to_byte (f : float) : bool :=
  (PrimFloat.leb 0 f && PrimFloat.ltb f 255.5)%bool.

(** The luminance of the pixel [(r, g, b)] is such a double. *)
Definition luma_in_range (r g b : Z) : bool :=
  rounds_to_byte
    (luma (to_number (Some r)) (to_number (Some g)) (to_number (Some b))).

(** The two tests of [count_cell] as predicates on a cell [(dy, dx)]. *)
Definition dark_hit (gray : list Z) (startX startY w thresh : Z)
    (cell : Z * Z) : bool :=
  let '(dy, dx) := cell in
  (isEdge dx dy || isInner dx dy)
  && js_lt (read gray ((startY + dy) * w + (startX + dx))) thresh.

Definition light_hit (gray : list Z) (startX startY w thresh : Z)
    (cell : Z * Z) : bool :=
  let '(dy, dx) := cell in
  negb (isEdge dx dy) && negb (isInner dx dy)
  && js_ge (read gray ((startY + dy) * w + (startX + dx))) thresh.

(** A string made of the characters ["0"] and ["1"] only. *)
Fixpoint bits_only (s : string) : bool :=
  match s with
  | EmptyString => true
  | String c s' => (Ascii.eqb c "0" || Ascii.eqb c "1") && bits_only s'
  end.

(** What the body of the loop of lines 84-89 appends to [result]. *)
Definition appended (chunk : string) : string :=
  match parseInt2 chunk with
  | Some charCode =>
      if (charCode >=? 32) && (charCode <=? 126)
      then fromCharCode charCode else ""
  | None => ""
  end.

(** The luminance of a pixel in exact arithmetic, a tie rounded up; the
    double-precision formula of the source is compared with it in
    [luma_double_half_way]. *)
Definition exact_luma (r g b : Z) : Z :=
  (299 * r + 587 * g + 114 * b + 500) / 1000.

(** The number that a string of decimal digits writes, read from the left
    onto [v]. *)
Fixpoint decimal_onto (v : Z) (s : string) : Z :=
  match s with
  | EmptyString => v
  | String c s' => decimal_onto (10 * v + (Z.of_N (N_of_ascii c) - 48)) s'
  end.

(** ** Sample frames *)

(** A luminance buffer given by a function of the pixel coordinates. *)
Definition frame (w h : Z) (lum : Z -> Z -> Z) : list Z :=
  flat_map (fun y => map (fun x => lum x y) (for_values 0 w 1))
           (for_values 0 h 1).

(** An exact finder silhouette: dark border and core, light middle ring. *)
Definition finder_cell (dx dy : Z) : Z :=
  if isEdge dx dy || isInner dx dy then 0 else 255.

(** White, with finder silhouettes at (0, 0), (9, 0) and (18, 0). *)
Definition three_finders (x y : Z) : Z :=
  if (y <? 7) && (x <? 25) && (x mod 9 <? 7)
  then finder_cell (x mod 9) y else 255.

Definition small_frame : list Z := frame 48 32 three_finders.

(** A 120 by 120 frame: the walk visits the 36 pixels with even coordinates
    from 54 to 64, and these carry the bits of ["A1_z"] followed by four
    dark pixels. *)
Definition payload : string := "01000001001100010101111101111010" ++ "1111".

Definition readable_frame : list Z :=
  frame 120 120
    (fun x y =>
       if (54 <=? x) && (x <? 66) && (54 <=? y) && (y <? 66)
          && Z.even x && Z.even y
       then
         match String.get (Z.to_nat (6 * ((y - 54) / 2) + (x - 54) / 2))
                          payload with
         | Some "1"%char => 0
         | _ => 255
         end
       else three_finders x y).

(** A frame that is exactly one finder silhouette. *)
Definition finder_frame : list Z := frame 7 7 finder_cell.

(** ** The component [QRScanner] (second part of the file) *)

(** The objects [{ data, timestamp }] of line 628; the [Date] is kept as its
    time value in milliseconds. *)
Record ScanResult : Type := mkScan { scanned : string; timestamp : Z }.

(** The updater of line 640, [prev => [result, ...prev.slice(0, 4)]]. *)
Definition pushHistory (result : ScanResult) (prev : list ScanResult)
    : list ScanResult :=
  result :: firstn 4 prev.

(** The history after the successful scans [results], oldest first, each
    applied to the history left by the ones before it. *)
Definition historyAfter (results : list ScanResult) : list ScanResult :=
  fold_left (fun prev result => pushHistory result prev) results [].

(** The four sides of the rectangle returned by [getBoundingClientRect]:
    finite numbers that the code only compares, kept as rationals. *)
Record DOMRect : Type :=
  mkRect { left : Q; right : Q; top : Q; bottom : Q }.

(** [a > b] on such numbers. *)
Definition Qgt_bool (a b : Q) : bool := negb (Qle_bool a b).

(** Lines 667-685: the new value of the state [positionHint], [None] being
    [null].  [scanArea] is [scanAreaRef.current]; when it is missing the
    function returns at line 668 and the state keeps its value. *)
Definition updatePositionHint (scanArea : option DOMRect)
    (innerWidth innerHeight : Z) (positionHint : option string)
    : option string :=
  match scanArea with
  | None => positionHint
  | Some scanRect =>
      let viewportCenter_x := (inject_Z innerWidth / 2)%Q in
      let viewportCenter_y := (inject_Z innerHeight / 2)%Q in
      let directions :=
        [ ("Move left", Qgt_bool (left scanRect) viewportCenter_x);
          ("Move right", Qgt_bool viewportCenter_x (right scanRect));
          ("Move up", Qgt_bool (top scanRect) viewportCenter_y);
          ("Move down", Qgt_bool viewportCenter_y (bottom scanRect)) ] in
      match find (fun d => snd d) directions with
      | Some d => Some (fst d)
      | None => None
      end
  end.

(** A string made of the character ["0"] only. *)
Fixpoint zeros_only (s : string) : bool :=
  match s with
  | EmptyString => true
  | String c s' => Ascii.eqb c "0" && zeros_only s'
  end.

(** The number of values of each loop variable of the walk over the centre
    of a [width] by [height] frame. *)
Definition walkSide (width height : Z) : nat :=
  Z.to_nat ((2 * Z.min 100 (Z.min width height / 10) + 3) / 4).

(** [s.includes(sub)]. *)
Fixpoint includes (sub s : string) : bool :=
  String.prefix sub s
  || match s with
     | EmptyString => false
     | String _ s' => includes sub s'
     end.

(** The arrows of lines 740-743, in the order in which they are rendered:
    left, right, up, down. *)
Definition arrows (positionHint : string) : list bool :=
  [ includes "left" positionHint; includes "right" positionHint;
    includes "up" positionHint; includes "down" positionHint ].

(** * Properties *)

(** ** Loops *)

Lemma for_values_from_seq (fuel : nat) :
  forall start stop step,
    0 < step -> stop - start <= Z.of_nat fuel ->
    for_values_from fuel start stop step
    = map (fun k => start + step * Z.of_nat k)
          (seq 0 (Z.to_nat ((stop - start + step - 1) / step))).
Proof.
  induction fuel as [|fuel IH]; intros start stop step Hstep Hfuel.
  - simpl.
    assert ((stop - start + step - 1) / step <= 0) as Hn.
    { apply Z.lt_succ_r, Z.div_lt_upper_bound; lia. }
    replace (Z.to_nat _) with O by lia. reflexivity.
  - simpl. destruct (start <? stop) eqn:Hlt.
    + apply Z.ltb_lt in Hlt.
      rewrite IH by lia.
      replace (stop - start + step - 1) with
        ((stop - (start + step) + step - 1) + 1 * step) by lia.
      rewrite Z.div_add by lia.
      assert (0 <= (stop - (start + step) + step - 1) / step) as Hn.
      { apply Z.div_pos; lia. }
      rewrite Z2Nat.inj_add by lia.
      rewrite Nat.add_comm. simpl.
      f_equal; [lia|].
      rewrite <- seq_shift, map_map.
      apply map_ext. intros k. lia.
    + apply Z.ltb_ge in Hlt.
      assert ((stop - start + step - 1) / step <= 0) as Hn.
      { apply Z.lt_succ_r, Z.div_lt_upper_bound; lia. }
      replace (Z.to_nat _) with O by lia. reflexivity.
Qed.

Lemma for_values_seq (start stop step : Z) :
  0 < step ->
  for_values start stop step
  = map (fun k => start + step * Z.of_nat k)
        (seq 0 (Z.to_nat ((stop - start + step - 1) / step))).
Proof.
  intros Hstep. unfold for_values. apply for_values_from_seq; lia.
Qed.

Lemma for_values_length (start stop step : Z) :
  0 < step ->
  List.length (for_values start stop step)
  = Z.to_nat ((stop - start + step - 1) / step).
Proof.
  intros Hstep. rewrite for_values_seq by assumption.
  now rewrite length_map, length_seq.
Qed.

Lemma for_values_In (start stop step v : Z) :
  0 < step ->
  In v (for_values start stop step)
  <-> start <= v < stop /\ (v - start) mod step = 0.
Proof.
  intros Hstep. rewrite for_values_seq by assumption.
  rewrite in_map_iff. split.
  - intros (k & <- & Hk). apply in_seq in Hk.
    assert (Z.of_nat k < (stop - start + step - 1) / step) as Hlt by lia.
    assert (step * ((stop - start + step - 1) / step)
            <= stop - start + step - 1) as Hmul
      by (apply Z.mul_div_le; lia).
    split; [nia|].
    replace (start + step * Z.of_nat k - start) with (Z.of_nat k * step) by lia.
    apply Z.mod_mul; lia.
  - intros ([Hlo Hhi] & Hmod).
    apply Z.mod_divide in Hmod; [|lia].
    destruct Hmod as [q Hq].
    exists (Z.to_nat q).
    assert (0 <= q) by nia.
    split; [lia|].
    apply in_seq. split; [lia|]. simpl.
    assert (q + 1 <= (stop - start + step - 1) / step); [|lia].
    apply Z.div_le_lower_bound; lia.
Qed.

(** ** The window classifier *)

Lemma window_regions :
  List.length window_cells = 49%nat
  /\ List.length border_ring = 24%nat
  /\ List.length inner_core = 9%nat
  /\ List.length middle_ring = 16%nat.
Proof. repeat split; reflexivity. Qed.

Lemma window_loop_values : for_values 0 7 1 = [0; 1; 2; 3; 4; 5; 6].
Proof. reflexivity. Qed.

Section Counting.
Variables (gray : list Z) (startX startY w thresh : Z).

Let dark := dark_hit gray startX startY w thresh.
Let light := light_hit gray startX startY w thresh.

(** One cell: each counter grows by one when its test passes, and the two
    tests exclude each other. *)
Lemma count_cell_hits (dy dx d l : Z) :
  count_cell gray startX startY w thresh dy (d, l) dx
  = (d + Z.b2z (dark (dy, dx)), l + Z.b2z (light (dy, dx))).
Proof.
  unfold count_cell, dark, light, dark_hit, light_hit.
  destruct (isEdge dx dy), (isInner dx dy),
    (js_lt (read gray ((startY + dy) * w + (startX + dx))) thresh),
    (js_ge (read gray ((startY + dy) * w + (startX + dx))) thresh);
    simpl; f_equal; lia.
Qed.

(** One row of the window: the inner loop adds to each counter the number
    of cells of the row that pass its test. *)
Lemma count_row (dy : Z) (cols : list Z) :
  forall d l,
    fold_left (count_cell gray startX startY w thresh dy) cols (d, l)
    = (d + Z.of_nat
             (List.length (filter dark (map (fun dx => (dy, dx)) cols))),
       l + Z.of_nat
             (List.length (filter light (map (fun dx => (dy, dx)) cols)))).
Proof.
  induction cols as [|dx cols IH]; intros d l.
  - simpl. f_equal; lia.
  - cbn [fold_left map filter].
    rewrite count_cell_hits, IH.
    destruct (dark (dy, dx)), (light (dy, dx));
      cbn [List.length Z.b2z]; f_equal; lia.
Qed.

Lemma count_rows (cols rows : list Z) :
  forall d l,
    fold_left
      (fun counts dy =>
         fold_left (count_cell gray startX startY w thresh dy) cols counts)
      rows (d, l)
    = (d + Z.of_nat (List.length (filter dark (list_prod rows cols))),
       l + Z.of_nat (List.length (filter light (list_prod rows cols)))).
Proof.
  induction rows as [|dy rows IH]; intros d l; simpl.
  - f_equal; lia.
  - rewrite count_row, IH.
    rewrite !filter_app, !length_app. f_equal; lia.
Qed.

Lemma classify_counts :
  classify gray startX startY w thresh
  = (20 <=? List.length (filter dark window_cells))%nat
    && (8 <=? List.length (filter light window_cells))%nat.
Proof.
  unfold classify. rewrite window_loop_values, count_rows.
  fold window_cells.
  rewrite !Z.geb_leb.
  f_equal.
  - destruct (Nat.leb_spec 20 (List.length (filter dark window_cells)));
      [apply Z.leb_le | apply Z.leb_gt]; lia.
  - destruct (Nat.leb_spec 8 (List.length (filter light window_cells)));
      [apply Z.leb_le | apply Z.leb_gt]; lia.
Qed.
End Counting.

(** Counting over a union of two disjoint regions, and over a region. *)
Lemma filter_two_regions {A : Type} (a b d : A -> bool) (cells : list A) :
  (forall c, In c cells -> a c && b c = false) ->
  List.length (filter (fun c => (a c || b c) && d c) cells)
  = List.length (filter d (filter a cells ++ filter b cells)%list).
Proof.
  intros Hdisj. rewrite filter_app, length_app.
  induction cells as [|c cells IH]; [reflexivity|].
  assert (a c && b c = false) as Hc by (apply Hdisj; now left).
  specialize (IH (fun c' Hin => Hdisj c' (or_intror Hin))).
  simpl. destruct (a c), (b c); try discriminate; simpl;
    destruct (d c); simpl; rewrite IH; lia.
Qed.

Lemma filter_region {A : Type} (a d : A -> bool) (cells : list A) :
  filter (fun c => a c && d c) cells = filter d (filter a cells).
Proof.
  induction cells as [|c cells IH]; [reflexivity|].
  simpl. destruct (a c); simpl; [destruct (d c)|]; now rewrite IH.
Qed.

Lemma window_cell_range (row col : Z) :
  In (row, col) window_cells -> 0 <= row <= 6 /\ 0 <= col <= 6.
Proof.
  unfold window_cells. rewrite in_prod_iff. simpl. lia.
Qed.

Lemma read_nth (arr : list Z) (idx : Z) :
  0 <= idx < Z.of_nat (List.length arr) ->
  read arr idx = Some (nth (Z.to_nat idx) arr 0).
Proof.
  intros Hidx. unfold read.
  destruct (idx <? 0) eqn:Hneg; [apply Z.ltb_lt in Hneg; lia|].
  apply nth_error_nth'. lia.
Qed.

Section Window.
Variables (gray : list Z) (w h thresh x y : Z).
Hypothesis Hlen : Z.of_nat (List.length gray) = w * h.
Hypothesis Hx : 0 <= x <= w - 8.
Hypothesis Hy : 0 <= y <= h - 8.

(** Every cell of an in-bounds window has a sample. *)
Lemma read_window_cell (cell : Z * Z) :
  In cell window_cells ->
  read gray ((y + fst cell) * w + (x + snd cell))
  = Some (luminance gray w x y cell).
Proof.
  destruct cell as [row col]. intros Hin.
  apply window_cell_range in Hin. simpl.
  apply read_nth. rewrite Hlen. nia.
Qed.

Lemma dark_hit_window (cell : Z * Z) :
  In cell window_cells ->
  dark_hit gray x y w thresh cell
  = (on_border cell || in_core cell) && (luminance gray w x y cell <? thresh).
Proof.
  intros Hin. pose proof (read_window_cell cell Hin) as Hread.
  destruct cell as [row col]. unfold dark_hit.
  simpl in Hread. rewrite Hread.
  unfold isEdge, isInner, on_border, in_core, js_lt.
  rewrite !Z.geb_leb. f_equal.
  destruct (col =? 0), (col =? 6), (row =? 0), (row =? 6),
    (2 <=? col), (col <=? 4), (2 <=? row), (row <=? 4); reflexivity.
Qed.

Lemma light_hit_window (cell : Z * Z) :
  In cell window_cells ->
  light_hit gray x y w thresh cell
  = (negb (on_border cell) && negb (in_core cell))
    && (thresh <=? luminance gray w x y cell).
Proof.
  intros Hin. pose proof (read_window_cell cell Hin) as Hread.
  destruct cell as [row col]. unfold light_hit.
  simpl in Hread. rewrite Hread.
  unfold isEdge, isInner, on_border, in_core, js_ge.
  rewrite !Z.geb_leb. f_equal.
  destruct (col =? 0), (col =? 6), (row =? 0), (row =? 6),
    (2 <=? col), (col <=? 4), (2 <=? row), (row <=? 4); reflexivity.
Qed.

Lemma border_core_disjoint (cell : Z * Z) :
  on_border cell && in_core cell = false.
Proof.
  destruct cell as [row col]. unfold on_border, in_core.
  destruct (row =? 0) eqn:R0; [apply Z.eqb_eq in R0|];
  destruct (row =? 6) eqn:R6; try apply Z.eqb_eq in R6;
  destruct (col =? 0) eqn:C0; try apply Z.eqb_eq in C0;
  destruct (col =? 6) eqn:C6; try apply Z.eqb_eq in C6;
  subst; simpl; try reflexivity;
  rewrite ?andb_false_r; reflexivity.
Qed.

Lemma dark_hits_count :
  List.length (filter (dark_hit gray x y w thresh) window_cells)
  = dark_count gray w thresh x y.
Proof.
  unfold dark_count, border_ring, inner_core.
  rewrite <- filter_two_regions
    by (intros; apply border_core_disjoint).
  f_equal. apply filter_ext_in. apply dark_hit_window.
Qed.

Lemma light_hits_count :
  List.length (filter (light_hit gray x y w thresh) window_cells)
  = light_count gray w thresh x y.
Proof.
  unfold light_count, middle_ring.
  rewrite <- filter_region.
  f_equal. apply filter_ext_in. apply light_hit_window.
Qed.

Lemma out_of_window_in_bounds : out_of_window x y w h = false.
Proof.
  unfold out_of_window. rewrite !Z.geb_leb.
  apply orb_false_iff. split; apply Z.leb_gt; lia.
Qed.

(** The classifier decides the rule of the specification on a window that
    is in bounds. *)
Lemma classifier_rule :
  isFinderPattern gray x y w h thresh = true
  <-> finder_rule gray w thresh x y.
Proof.
  unfold isFinderPattern, finder_rule.
  rewrite out_of_window_in_bounds, classify_counts.
  rewrite dark_hits_count, light_hits_count.
  rewrite andb_true_iff, !Nat.leb_le. reflexivity.
Qed.
End Window.

(** ** The locator *)

Lemma for_values_from_lower (fuel : nat) :
  forall start stop step v,
    0 < step -> In v (for_values_from fuel start stop step) -> start <= v.
Proof.
  induction fuel as [|fuel IH]; intros start stop step v Hstep Hin;
    simpl in Hin; [contradiction|].
  destruct (start <? stop); [|contradiction].
  destruct Hin as [<- | Hin]; [lia|].
  apply IH in Hin; lia.
Qed.

Lemma for_values_from_sorted (fuel : nat) :
  forall start stop step,
    0 < step -> StronglySorted Z.lt (for_values_from fuel start stop step).
Proof.
  induction fuel as [|fuel IH]; intros start stop step Hstep; simpl;
    [constructor|].
  destruct (start <? stop); [|constructor].
  constructor; [now apply IH|].
  apply Forall_forall. intros v Hin.
  apply for_values_from_lower in Hin; lia.
Qed.

Lemma for_values_sorted (start stop step : Z) :
  0 < step -> StronglySorted Z.lt (for_values start stop step).
Proof. apply for_values_from_sorted. Qed.

Lemma grid_values (n v : Z) :
  In v (for_values 0 (n - minQRSize) 3) <-> on_grid n v.
Proof.
  rewrite for_values_In by lia. unfold on_grid, minQRSize.
  rewrite Z.sub_0_r. tauto.
Qed.

Lemma StronglySorted_app {A : Type} (R : A -> A -> Prop) (l1 l2 : list A) :
  StronglySorted R l1 -> StronglySorted R l2 ->
  (forall a b, In a l1 -> In b l2 -> R a b) ->
  StronglySorted R (l1 ++ l2)%list.
Proof.
  intros H1 H2 Hcross. induction H1 as [|a l1 Hs IH Hall]; simpl; [assumption|].
  constructor.
  - apply IH. intros; apply Hcross; simpl; auto.
  - apply Forall_app. split; [assumption|].
    apply Forall_forall. intros b Hb. apply Hcross; simpl; auto.
Qed.

Lemma StronglySorted_flat_map {A B : Type} (RA : A -> A -> Prop)
    (RB : B -> B -> Prop) (f : A -> list B) (l : list A) :
  StronglySorted RA l ->
  (forall a, In a l -> StronglySorted RB (f a)) ->
  (forall a a' b b', RA a a' -> In b (f a) -> In b' (f a') -> RB b b') ->
  StronglySorted RB (flat_map f l).
Proof.
  intros Hl Hrow Hcross. induction Hl as [|a l Hs IH Hall]; simpl;
    [constructor|].
  apply StronglySorted_app.
  - apply Hrow. now left.
  - apply IH. intros; apply Hrow; now right.
  - intros b b' Hb Hb'. apply in_flat_map in Hb'.
    destruct Hb' as (a' & Ha' & Hb').
    rewrite Forall_forall in Hall.
    eapply Hcross; eauto.
Qed.

Section Locator.
Variables (gray : list Z) (width height threshold : Z).

(** What the loop body pushes at the grid point [(x, y)]. *)
Let pushed (y x : Z) : list Pattern :=
  if isFinderPattern gray x y width height threshold
  then [mkPattern x y] else [].

Lemma pushed_In (y x : Z) (p : Pattern) :
  In p (pushed y x)
  <-> p = mkPattern x y
      /\ isFinderPattern gray x y width height threshold = true.
Proof.
  unfold pushed.
  destruct (isFinderPattern gray x y width height threshold); simpl.
  - intuition congruence.
  - intuition congruence.
Qed.

(** The candidates are the grid points that the classifier accepts. *)
Lemma findPatterns_In (p : Pattern) :
  In p (findPatterns gray width height threshold)
  <-> on_grid width (x_of p) /\ on_grid height (y_of p)
      /\ isFinderPattern gray (x_of p) (y_of p) width height threshold
         = true.
Proof.
  unfold findPatterns. rewrite in_flat_map. split.
  - intros (y & Hy & Hin). apply in_flat_map in Hin.
    destruct Hin as (x & Hx & Hin).
    apply pushed_In in Hin. destruct Hin as [-> Hfp]. simpl.
    apply grid_values in Hx, Hy. auto.
  - intros (Hx & Hy & Hfp). exists (y_of p).
    split; [now apply grid_values|].
    apply in_flat_map. exists (x_of p).
    split; [now apply grid_values|].
    apply pushed_In. split; [now destruct p | assumption].
Qed.

Lemma findPatterns_sorted :
  StronglySorted row_major_lt (findPatterns gray width height threshold).
Proof.
  unfold findPatterns.
  apply StronglySorted_flat_map with (RA := Z.lt).
  - apply for_values_sorted; lia.
  - intros y _. apply StronglySorted_flat_map with (RA := Z.lt).
    + apply for_values_sorted; lia.
    + intros x _. fold (pushed y x). unfold pushed.
      destruct (isFinderPattern gray x y width height threshold);
        repeat constructor.
    + intros x x' p p' Hlt Hp Hp'.
      apply pushed_In in Hp, Hp'.
      destruct Hp as [-> _], Hp' as [-> _]. right. simpl. auto.
  - intros y y' p p' Hlt Hp Hp'.
    apply in_flat_map in Hp, Hp'.
    destruct Hp as (x & _ & Hp), Hp' as (x' & _ & Hp').
    apply pushed_In in Hp, Hp'.
    destruct Hp as [-> _], Hp' as [-> _]. left. simpl. auto.
Qed.
End Locator.

(** The candidates of the first row of the grid are among the candidates. *)
Lemma findPatterns_first_row (gray : list Z) (width height threshold : Z) :
  0 < height - minQRSize ->
  (List.length
     (flat_map
        (fun x =>
           if isFinderPattern gray x 0 width height threshold
           then [mkPattern x 0] else [])
        (for_values 0 (width - minQRSize) 3))
   <= List.length (findPatterns gray width height threshold))%nat.
Proof.
  intros Hrows. unfold findPatterns.
  unfold for_values at 3.
  destruct (Z.to_nat (height - minQRSize - 0)) as [|fuel] eqn:Hfuel; [lia|].
  cbn [for_values_from].
  destruct (0 <? height - minQRSize) eqn:Hlt; [|apply Z.ltb_ge in Hlt; lia].
  cbn [flat_map]. rewrite length_app. lia.
Qed.

(** A grid point leaves room for the window. *)
Lemma grid_in_bounds (n v : Z) : on_grid n v -> 0 <= v <= n - 8.
Proof. unfold on_grid. lia. Qed.

(** ** Strings *)

Lemma append_empty_r (s : string) : s ++ "" = s.
Proof. induction s as [|c s IH]; simpl; [reflexivity | now rewrite IH]. Qed.

Lemma append_assoc (s1 s2 s3 : string) : (s1 ++ s2) ++ s3 = s1 ++ (s2 ++ s3).
Proof. induction s1 as [|c s1 IH]; simpl; [reflexivity | now rewrite IH]. Qed.

Lemma length_append (s1 s2 : string) :
  String.length (s1 ++ s2) = (String.length s1 + String.length s2)%nat.
Proof. induction s1 as [|c s1 IH]; simpl; [reflexivity | now rewrite IH]. Qed.

Lemma length_take (n : nat) :
  forall s, String.length (take n s) = Nat.min n (String.length s).
Proof.
  induction n as [|n IH]; intros [|c s]; simpl; try reflexivity.
  now rewrite IH.
Qed.

Lemma length_drop (n : nat) :
  forall s, String.length (drop n s) = (String.length s - n)%nat.
Proof.
  induction n as [|n IH]; intros [|c s]; simpl; try reflexivity.
  now rewrite IH.
Qed.

Lemma take_all (n : nat) :
  forall s, (String.length s <= n)%nat -> take n s = s.
Proof.
  induction n as [|n IH]; intros [|c s] Hlen; simpl in *;
    try reflexivity; try lia.
  rewrite IH by lia. reflexivity.
Qed.

Lemma drop_all (n : nat) :
  forall s, (String.length s <= n)%nat -> drop n s = "".
Proof.
  induction n as [|n IH]; intros [|c s] Hlen; simpl in *;
    try reflexivity; try lia.
  apply IH. lia.
Qed.

Lemma drop_append (s1 s2 : string) : drop (String.length s1) (s1 ++ s2) = s2.
Proof. induction s1 as [|c s1 IH]; simpl; [now destruct s2 | assumption]. Qed.

Lemma bits_only_append (s1 s2 : string) :
  bits_only (s1 ++ s2) = bits_only s1 && bits_only s2.
Proof.
  induction s1 as [|c s1 IH]; simpl; [reflexivity|].
  rewrite IH. now rewrite andb_assoc.
Qed.

Lemma bits_only_take (n : nat) :
  forall s, bits_only s = true -> bits_only (take n s) = true.
Proof.
  induction n as [|n IH]; intros [|c s] Hs; simpl in *; try reflexivity.
  apply andb_true_iff in Hs. destruct Hs as [-> Hs]. simpl. now apply IH.
Qed.

Lemma bits_only_drop (n : nat) :
  forall s, bits_only s = true -> bits_only (drop n s) = true.
Proof.
  induction n as [|n IH]; intros [|c s] Hs; simpl in *; try assumption.
  apply andb_true_iff in Hs. destruct Hs as [_ Hs]. now apply IH.
Qed.

Lemma concat_empty_cons (s : string) (l : list string) :
  String.concat "" (s :: l) = s ++ String.concat "" l.
Proof.
  destruct l as [|s' l]; simpl; [now rewrite append_empty_r | reflexivity].
Qed.

Lemma concat_empty_app (l1 l2 : list string) :
  String.concat "" (l1 ++ l2)%list
  = String.concat "" l1 ++ String.concat "" l2.
Proof.
  induction l1 as [|s l1 IH]; [reflexivity|].
  change ((s :: l1) ++ l2)%list with (s :: (l1 ++ l2))%list.
  now rewrite !concat_empty_cons, IH, append_assoc.
Qed.

(** ** Chunks and their values *)

(** The loop of lines 84-89 appends the contribution of each chunk. *)
Lemma decode_fold (chunks : list string) :
  forall result,
    fold_left
      (fun result chunk =>
         match parseInt2 chunk with
         | Some charCode =>
             if (charCode >=? 32) && (charCode <=? 126)
             then result ++ fromCharCode charCode
             else result
         | None => result
         end)
      chunks result
    = result ++ String.concat "" (map appended chunks).
Proof.
  induction chunks as [|chunk chunks IH]; intros result.
  - simpl. now rewrite append_empty_r.
  - cbn [fold_left map]. rewrite IH, concat_empty_cons, <- append_assoc.
    f_equal. unfold appended.
    destruct (parseInt2 chunk) as [charCode|];
      [destruct ((charCode >=? 32) && (charCode <=? 126))|];
      now rewrite ?append_empty_r.
Qed.

Lemma decodeChunks_concat (chunks : list string) :
  decodeChunks chunks = String.concat "" (map appended (firstn 20 chunks)).
Proof. unfold decodeChunks. now rewrite decode_fold. Qed.

Lemma parse_bits_upper (s : string) :
  forall acc, 0 <= acc ->
    0 <= parse_bits acc s < (acc + 1) * 2 ^ Z.of_nat (String.length s).
Proof.
  induction s as [|c s IH]; intros acc Hacc.
  - simpl. lia.
  - cbn [parse_bits String.length]. rewrite Nat2Z.inj_succ, Z.pow_succ_r by lia.
    assert (0 < 2 ^ Z.of_nat (String.length s)) as Hpow
      by (apply Z.pow_pos_nonneg; lia).
    unfold bit_of.
    destruct (Ascii.eqb c "0"); [|destruct (Ascii.eqb c "1")].
    + specialize (IH (2 * acc + 0) ltac:(lia)). nia.
    + specialize (IH (2 * acc + 1) ltac:(lia)). nia.
    + nia.
Qed.

Lemma parse_bits_binary (s : string) :
  forall acc, bits_only s = true ->
    parse_bits acc s = acc * 2 ^ Z.of_nat (String.length s) + binary_value s.
Proof.
  induction s as [|c s IH]; intros acc Hs.
  - simpl. lia.
  - cbn [parse_bits String.length binary_value bits_only] in *.
    rewrite Nat2Z.inj_succ, Z.pow_succ_r by lia.
    apply andb_true_iff in Hs. destruct Hs as [Hc Hs].
    unfold bit_of.
    destruct (Ascii.eqb c "0") eqn:H0, (Ascii.eqb c "1") eqn:H1;
      try discriminate.
    + apply Ascii.eqb_eq in H0, H1. congruence.
    + rewrite IH by assumption. lia.
    + rewrite IH by assumption. lia.
Qed.

(** A short chunk is worth less than 32 and adds nothing. *)
Lemma appended_short (chunk : string) :
  (String.length chunk <= 5)%nat -> appended chunk = "".
Proof.
  intros Hlen. unfold appended, parseInt2.
  destruct chunk as [|c rest]; [reflexivity|].
  destruct (bit_of c); [|reflexivity].
  pose proof (parse_bits_upper (String c rest) 0 ltac:(lia)) as Hup.
  assert (2 ^ Z.of_nat (String.length (String c rest)) <= 2 ^ 5) as Hpow
    by (apply Z.pow_le_mono_r; lia).
  destruct (parse_bits 0 (String c rest) >=? 32) eqn:Hge; [|reflexivity].
  rewrite Z.geb_leb in Hge. apply Z.leb_le in Hge. lia.
Qed.

(** On a non-empty chunk of binary digits the source and the specification
    agree. *)
Lemma appended_bits (chunk : string) :
  bits_only chunk = true -> chunk <> "" -> appended chunk = chunk_char chunk.
Proof.
  intros Hbits Hne.
  destruct chunk as [|c rest]; [congruence|].
  assert (exists b, bit_of c = Some b) as [b Hb].
  { simpl in Hbits. apply andb_true_iff in Hbits. destruct Hbits as [Hc _].
    unfold bit_of. destruct (Ascii.eqb c "0"); [now exists 0|].
    simpl in Hc. rewrite Hc. now exists 1. }
  unfold appended, parseInt2. rewrite Hb.
  rewrite parse_bits_binary by assumption.
  rewrite Z.mul_0_l, Z.add_0_l, Z.geb_leb. reflexivity.
Qed.

Lemma match_1_8_from_empty (fuel : nat) : match_1_8_from fuel "" = [].
Proof. now destruct fuel. Qed.

(** The matches of [/.{1,8}/g] are the full chunks, followed by what is left
    when the length is not a multiple of 8. *)
Lemma match_1_8_from_full (fuel : nat) :
  forall s, (String.length s <= fuel)%nat ->
    exists tail,
      match_1_8_from fuel s = (full_chunks_from fuel s ++ tail)%list
      /\ (tail = []
          \/ exists r k, tail = [r] /\ (String.length r < 8)%nat
               /\ String.length s = (8 * k + String.length r)%nat).
Proof.
  induction fuel as [|fuel IH]; intros s Hlen.
  - exists []. split; [reflexivity | now left].
  - destruct s as [|c s0] eqn:Es; [exists []; split; [reflexivity | now left]|].
    rewrite <- Es in *. assert (s <> "") as Hne by (subst s; discriminate).
    cbn [full_chunks_from].
    replace (match_1_8_from (S fuel) s)
      with (take 8 s :: match_1_8_from fuel (drop 8 s))
      by (subst s; reflexivity).
    destruct (Nat.leb_spec 8 (String.length s)) as [Hge | Hlt].
    + destruct (IH (drop 8 s)) as (tail & Heq & Htail).
      { rewrite length_drop. subst s. simpl in *. lia. }
      exists tail. split; [now rewrite Heq|].
      destruct Htail as [-> | (r & k & -> & Hr & Hk)]; [now left|].
      right. exists r, (S k). rewrite length_drop in Hk.
      split; [reflexivity | split; [assumption | lia]].
    + exists [take 8 s]. rewrite drop_all, match_1_8_from_empty by lia.
      split; [reflexivity|]. right. exists (take 8 s), O.
      rewrite take_all by lia.
      split; [reflexivity | split; [assumption | lia]].
Qed.

Lemma full_chunks_from_bits (fuel : nat) :
  forall s chunk,
    bits_only s = true -> In chunk (full_chunks_from fuel s) ->
    String.length chunk = 8%nat /\ bits_only chunk = true.
Proof.
  induction fuel as [|fuel IH]; intros s chunk Hs Hin;
    cbn [full_chunks_from] in Hin; [contradiction|].
  destruct (Nat.leb_spec 8 (String.length s)) as [Hge | Hlt];
    [|contradiction].
  destruct Hin as [<- | Hin].
  - rewrite length_take. split; [lia | now apply bits_only_take].
  - apply IH in Hin; [assumption | now apply bits_only_drop].
Qed.

Lemma In_firstn {A : Type} (n : nat) (l : list A) (a : A) :
  In a (firstn n l) -> In a l.
Proof.
  intros Hin. rewrite <- (firstn_skipn n l). apply in_or_app. now left.
Qed.

(** When what is left after the full chunks is at most five characters long,
    keeping it or dropping it makes no difference to the decoded string. *)
Lemma decode_short_tail (s : string) :
  bits_only s = true ->
  (exists q m, String.length s = (8 * q + m)%nat /\ (m <= 5)%nat) ->
  decodeChunks (match_1_8 s) = decode_spec s.
Proof.
  intros Hbits (q & m & Hqm & Hm).
  rewrite decodeChunks_concat. unfold decode_spec, match_1_8, full_chunks.
  destruct (match_1_8_from_full (String.length s) s (le_n _))
    as (tail & -> & Htail).
  rewrite firstn_app, map_app, concat_empty_app.
  assert (String.concat ""
            (map appended
               (firstn (20 - List.length
                               (full_chunks_from (String.length s) s)) tail))
          = "") as ->.
  { destruct Htail as [-> | (r & k & -> & Hr & Hk)];
      [now rewrite firstn_nil|].
    destruct (20 - _)%nat; [reflexivity|].
    rewrite firstn_cons, firstn_nil. simpl. apply appended_short. lia. }
  rewrite append_empty_r. f_equal.
  apply map_ext_in. intros chunk Hin.
  apply In_firstn, (full_chunks_from_bits _ _ _ Hbits) in Hin.
  destruct Hin as [Hlen Hchunk].
  apply appended_bits; [assumption|].
  intros ->. discriminate.
Qed.

Lemma square_mod_8 (n : nat) :
  exists q m, (n * n = 8 * q + m)%nat /\ (m <= 5)%nat.
Proof.
  pose proof (Nat.div_mod_eq n 8) as Hn.
  pose proof (Nat.mod_upper_bound n 8 ltac:(lia)) as Hr.
  set (a := (n / 8)%nat) in *. set (r := (n mod 8)%nat) in *.
  clearbody a r. subst n.
  assert (r = 0 \/ r = 1 \/ r = 2 \/ r = 3 \/ r = 4 \/ r = 5 \/ r = 6
          \/ r = 7)%nat as Hcases by lia.
  destruct Hcases as [-> | [-> | [-> | [-> | [-> | [-> | [-> | ->]]]]]]].
  - exists (8 * a * a)%nat, 0%nat. split; lia.
  - exists (8 * a * a + 2 * a)%nat, 1%nat. split; lia.
  - exists (8 * a * a + 4 * a)%nat, 4%nat. split; lia.
  - exists (8 * a * a + 6 * a + 1)%nat, 1%nat. split; lia.
  - exists (8 * a * a + 8 * a + 2)%nat, 0%nat. split; lia.
  - exists (8 * a * a + 10 * a + 3)%nat, 1%nat. split; lia.
  - exists (8 * a * a + 12 * a + 4)%nat, 4%nat. split; lia.
  - exists (8 * a * a + 14 * a + 6)%nat, 1%nat. split; lia.
Qed.

(** ** The walk over the centre *)

Section Walk.
Variables (gray : list Z) (width height threshold : Z).

Let centerX := width / 2.
Let centerY := height / 2.
Let extractSize := Z.min 100 (Z.min width height / 10).
Let xs := for_values (2 * centerX - extractSize) (2 * centerX + extractSize) 4.
Let ys := for_values (2 * centerY - extractSize) (2 * centerY + extractSize) 4.

(** Every point of the walk passes the bounds test of line 73: the walk
    spans at most a tenth of the shorter side around the centre. *)
Lemma walk_in_bounds (x2 y2 : Z) :
  In x2 xs -> In y2 ys ->
  (x2 >=? 0) && (x2 <? 2 * width) && (y2 >=? 0) && (y2 <? 2 * height)
  = true.
Proof.
  unfold xs, ys. rewrite !for_values_In by lia.
  intros [Hx _] [Hy _].
  assert (0 < extractSize) as Hpos by lia.
  assert (10 * extractSize <= width /\ 10 * extractSize <= height) as [Hw Hh].
  { unfold extractSize in *.
    pose proof (Z.mul_div_le (Z.min width height) 10 ltac:(lia)). lia. }
  assert (width - 1 <= 2 * centerX <= width
          /\ height - 1 <= 2 * centerY <= height) as [Hcx Hcy].
  { unfold centerX, centerY.
    pose proof (Z.div_mod width 2 ltac:(lia)).
    pose proof (Z.mod_pos_bound width 2 ltac:(lia)).
    pose proof (Z.div_mod height 2 ltac:(lia)).
    pose proof (Z.mod_pos_bound height 2 ltac:(lia)). lia. }
  rewrite !Z.geb_leb, !andb_true_iff, !Z.leb_le, !Z.ltb_lt. lia.
Qed.

Lemma walk_step_append (y2 x2 : Z) (acc : string) :
  In x2 xs -> In y2 ys ->
  exists bit,
    walk_step gray width height threshold y2 acc x2 = acc ++ bit
    /\ String.length bit = 1%nat /\ bits_only bit = true.
Proof.
  intros Hx Hy. unfold walk_step. rewrite walk_in_bounds by assumption.
  destruct (js_lt _ threshold); eexists; repeat split; reflexivity.
Qed.

Lemma walk_row (y2 : Z) (cols : list Z) :
  (forall x2, In x2 cols -> In x2 xs) -> In y2 ys ->
  forall acc,
    exists bits,
      fold_left (walk_step gray width height threshold y2) cols acc
      = acc ++ bits
      /\ String.length bits = List.length cols /\ bits_only bits = true.
Proof.
  intros Hcols Hy. induction cols as [|x2 cols IH]; intros acc.
  - exists "". now rewrite append_empty_r.
  - cbn [fold_left].
    destruct (walk_step_append y2 x2 acc) as (bit & -> & Hlen & Hbit);
      [apply Hcols; now left | assumption |].
    destruct (IH (fun x Hin => Hcols x (or_intror Hin)) (acc ++ bit))
      as (bits & -> & Hlens & Hbits).
    exists (bit ++ bits). rewrite append_assoc, length_append, bits_only_append.
    rewrite Hlen, Hlens, Hbit, Hbits. repeat split.
Qed.

Lemma walk_rows (rows : list Z) :
  (forall y2, In y2 rows -> In y2 ys) ->
  forall acc,
    exists bits,
      fold_left
        (fun dataString y2 =>
           fold_left (walk_step gray width height threshold y2) xs
                     dataString)
        rows acc
      = acc ++ bits
      /\ String.length bits = (List.length rows * List.length xs)%nat
      /\ bits_only bits = true.
Proof.
  intros Hrows. induction rows as [|y2 rows IH]; intros acc.
  - exists "". now rewrite append_empty_r.
  - cbn [fold_left].
    destruct (walk_row y2 xs (fun _ H => H) (Hrows y2 (or_introl eq_refl)) acc)
      as (row & -> & Hlen & Hrow).
    destruct (IH (fun y Hin => Hrows y (or_intror Hin)) (acc ++ row))
      as (bits & -> & Hlens & Hbits).
    exists (row ++ bits). rewrite append_assoc, length_append, bits_only_append.
    rewrite Hlen, Hlens, Hrow, Hbits. repeat split.
Qed.

Lemma walk_square : List.length ys = List.length xs.
Proof.
  unfold xs, ys. rewrite !for_values_length by lia.
  do 2 f_equal. lia.
Qed.

(** The bit string is made of binary digits and its length is a square. *)
Lemma extractBits_shape :
  bits_only (extractBits gray width height threshold) = true
  /\ String.length (extractBits gray width height threshold)
     = (List.length xs * List.length xs)%nat.
Proof.
  unfold extractBits. fold centerX centerY extractSize. fold xs ys.
  destruct (walk_rows ys (fun _ H => H) "") as (bits & -> & Hlen & Hbits).
  simpl. rewrite Hlen, walk_square. auto.
Qed.

(** On the bit string of the walk, the loop of the source computes the
    string that the specification describes. *)
Lemma candidate_decode_spec :
  candidateString gray width height threshold
  = decode_spec (extractBits gray width height threshold).
Proof.
  unfold candidateString.
  destruct extractBits_shape as [Hbits Hlen].
  apply decode_short_tail; [assumption|].
  rewrite Hlen. apply square_mod_8.
Qed.
End Walk.

(** ** The luminance formula *)

(** The formula was evaluated on every triple of bytes, each product being
    computed once. *)
Lemma luma_table_checked :
  (let reds := map (fun v => (0.299 * to_number (Some v))%float) all_bytes in
   let greens := map (fun v => (0.587 * to_number (Some v))%float) all_bytes in
   let blues := map (fun v => (0.114 * to_number (Some v))%float) all_bytes in
   forallb
     (fun red =>
        forallb
          (fun green =>
             let sum := (red + green)%float in
             forallb (fun blue => rounds_to_byte (sum + blue)%float) blues)
          greens)
     reds)
  = true.
Proof. vm_compute. reflexivity. Qed.

Lemma all_bytes_In (v : Z) : is_byte v -> In v all_bytes.
Proof.
  intros Hv. unfold all_bytes. apply in_map_iff.
  exists (Z.to_nat v). split; [unfold is_byte in Hv; lia|].
  apply in_seq. unfold is_byte in Hv. lia.
Qed.

Lemma luma_bytes_in_range (r g b : Z) :
  is_byte r -> is_byte g -> is_byte b -> luma_in_range r g b = true.
Proof.
  intros Hr Hg Hb. pose proof luma_table_checked as Hall.
  cbv zeta in Hall.
  rewrite forallb_forall in Hall.
  specialize (Hall _ (in_map _ _ _ (all_bytes_In r Hr))).
  rewrite forallb_forall in Hall.
  specialize (Hall _ (in_map _ _ _ (all_bytes_In g Hg))).
  rewrite forallb_forall in Hall.
  exact (Hall _ (in_map _ _ _ (all_bytes_In b Hb))).
Qed.

Lemma digits2_pos_upper (m : positive) :
  Z.pos m < 2 ^ Z.pos (digits2_pos m).
Proof.
  induction m as [m IH | m IH |]; cbn [digits2_pos];
    rewrite ?Pos2Z.inj_succ, ?Z.pow_succ_r by lia; lia.
Qed.

Lemma Prim2SF_bounds :
  Prim2SF 0 = S754_zero false
  /\ Prim2SF 255.5 = S754_finite false 8989607068696576 (-45).
Proof. split; vm_compute; reflexivity. Qed.

(** A double that is not negative and is below 255.5 rounds to a byte. *)
Lemma Math_round_byte (f : float) :
  PrimFloat.leb 0 f = true -> PrimFloat.ltb f 255.5 = true ->
  exists z, Math_round f = RInt z /\ is_byte z.
Proof.
  rewrite leb_spec, ltb_spec. unfold Math_round.
  pose proof (Prim2SF_valid f) as Hvalid.
  destruct Prim2SF_bounds as [-> ->].
  destruct (Prim2SF f) as [s | s | | s m e]; intros Hle Hlt.
  - exists 0. split; [reflexivity | unfold is_byte; lia].
  - destruct s; discriminate.
  - discriminate.
  - destruct s; [discriminate|].
    cbn [valid_binary bounded] in Hvalid.
    apply andb_true_iff in Hvalid. destruct Hvalid as [Hcanon _].
    unfold canonical_mantissa, fexp in Hcanon. apply Z.eqb_eq in Hcanon.
    pose proof (digits2_pos_upper m) as Hm.
    assert (Z.pos (digits2_pos m) <= 53) as Hdigits
      by (unfold prec in Hcanon; lia).
    assert (Z.pos m < 2 ^ 53) as Hm53.
    { eapply Z.lt_le_trans; [exact Hm|]. apply Z.pow_le_mono_r; lia. }
    unfold SFltb, SFcompare in Hlt.
    assert (e <= -45 /\ (e = -45 -> Z.pos m < 8989607068696576)) as [He Hm0].
    { destruct (Z.compare_spec e (-45)) as [-> | Hlt' | Hgt];
        [|split; lia | discriminate].
      split; [lia|]. intros _.
      rewrite Pos.compare_cont_spec in Hlt.
      destruct (m ?= 8989607068696576)%positive eqn:Hcmp;
        cbn [Pos.switch_Eq] in Hlt; try discriminate.
      apply Pos.compare_lt_iff in Hcmp.
      exact (Pos2Z.pos_lt_pos _ _ Hcmp). }
    exists (Z.shiftr (2 * Z.pos m + 2 ^ (- e)) (1 - e)).
    destruct (0 <=? e) eqn:Hsign; [apply Z.leb_le in Hsign; lia|].
    split; [reflexivity|].
    rewrite Z.shiftr_div_pow2 by lia.
    replace (1 - e) with (Z.succ (- e)) by lia.
    rewrite Z.pow_succ_r by lia.
    assert (2 ^ 45 <= 2 ^ (- e)) as Hpow by (apply Z.pow_le_mono_r; lia).
    assert (e < -45 -> 2 ^ 46 <= 2 ^ (- e)) as Hpow'
      by (intros; apply Z.pow_le_mono_r; lia).
    change (2 ^ 45) with 35184372088832 in Hpow.
    change (2 ^ 46) with 70368744177664 in Hpow'.
    change (2 ^ 53) with 9007199254740992 in Hm53.
    set (P := 2 ^ (- e)) in *.
    unfold is_byte. split.
    + apply Z.div_pos; lia.
    + apply Z.lt_succ_r, Z.div_lt_upper_bound; [lia|].
      destruct (Z.eq_dec e (-45)) as [Heq | Hne];
        [specialize (Hm0 Heq) | specialize (Hpow' ltac:(lia))]; lia.
Qed.

(** Where the exact value lies half way between two integers the double
    falls just short of it: pixel (0, 36, 12) has luminance 22.5 in exact
    arithmetic and 22.499999999999996 in the source, which stores 22. *)
Lemma luma_double_half_way :
  gray_at [0; 36; 12; 255] 0 = RInt 22 /\ exact_luma 0 36 12 = 23.
Proof. split; vm_compute; reflexivity. Qed.

(** ** The conversion loop *)

Lemma length_store (arr : list Z) :
  forall n v, List.length (store arr n v) = List.length arr.
Proof.
  induction arr as [|a arr IH]; intros [|n] v; simpl; auto.
Qed.

Lemma nth_error_store_same (arr : list Z) :
  forall n v, (n < List.length arr)%nat ->
    nth_error (store arr n v) n = Some v.
Proof.
  induction arr as [|a arr IH]; intros [|n] v Hn; simpl in *;
    try lia; [reflexivity|].
  apply IH. lia.
Qed.

Lemma nth_error_store_other (arr : list Z) :
  forall n j v, j <> n -> nth_error (store arr n v) j = nth_error arr j.
Proof.
  induction arr as [|a arr IH]; intros [|n] [|j] v Hj; simpl;
    try reflexivity; try congruence.
  apply IH. congruence.
Qed.

Lemma fold_left_ext_in {A B : Type} (f g : A -> B -> A) (l : list B) :
  (forall a b, In b l -> f a b = g a b) ->
  forall a, fold_left f l a = fold_left g l a.
Proof.
  induction l as [|b l IH]; intros Hfg a; [reflexivity|].
  simpl. rewrite Hfg by now left.
  apply IH. intros; apply Hfg; now right.
Qed.

Section Conversion.
Variable data : list Z.

Let body (gs : list Z) (i : Z) : list Z :=
  store gs (Z.to_nat (i / 4)) (ToUint8Clamp (gray_at data i)).

Lemma conversion_length (indices : list Z) :
  forall gs, List.length (fold_left body indices gs) = List.length gs.
Proof.
  induction indices as [|i indices IH]; intros gs; [reflexivity|].
  simpl. rewrite IH. apply length_store.
Qed.

(** After the first [n] turns of the loop the first [n] samples are in
    place. *)
Lemma conversion_prefix (n : nat) :
  forall gs j,
    (n <= List.length gs)%nat -> (j < n)%nat ->
    nth_error
      (fold_left body (map (fun k => 0 + 4 * Z.of_nat k) (seq 0 n)) gs) j
    = Some (ToUint8Clamp (gray_at data (4 * Z.of_nat j))).
Proof.
  induction n as [|n IH]; intros gs j Hn Hj; [lia|].
  rewrite seq_S, map_app, fold_left_app. cbn [map fold_left Nat.add].
  set (done := fold_left body (map _ (seq 0 n)) gs).
  assert (List.length done = List.length gs) as Hlen
    by apply conversion_length.
  unfold body at 1. rewrite Z.add_0_l.
  replace (Z.to_nat (4 * Z.of_nat n / 4)) with n
    by (rewrite Z.mul_comm, Z.div_mul by lia; lia).
  destruct (Nat.eq_dec j n) as [-> | Hne].
  - apply nth_error_store_same. lia.
  - rewrite nth_error_store_other by assumption.
    apply IH; lia.
Qed.
End Conversion.

Lemma grayscale_length (data : list Z) (width height : Z) :
  List.length (grayscale data width height) = Z.to_nat (width * height).
Proof.
  unfold grayscale. rewrite conversion_length. apply repeat_length.
Qed.

Lemma grayscale_sample (data : list Z) (width height i : Z) :
  Z.of_nat (List.length data) = width * height * 4 ->
  0 <= i < width * height ->
  read (grayscale data width height) i
  = Some (ToUint8Clamp (gray_at data (4 * i))).
Proof.
  intros Hlen Hi. unfold read.
  destruct (i <? 0) eqn:Hneg; [apply Z.ltb_lt in Hneg; lia|].
  unfold grayscale. rewrite for_values_seq by lia.
  replace (Z.to_nat ((Z.of_nat (List.length data) - 0 + 4 - 1) / 4))
    with (Z.to_nat (width * height)).
  - rewrite conversion_prefix; [|rewrite repeat_length; lia | lia].
    do 3 f_equal. lia.
  - f_equal. rewrite Hlen.
    replace (width * height * 4 - 0 + 4 - 1)
      with (3 + (width * height) * 4) by lia.
    rewrite Z.div_add by lia. reflexivity.
Qed.

(** The conversion reads no alpha sample. *)
Lemma grayscale_alpha (data data' : list Z) (width height : Z) :
  List.length data' = List.length data ->
  (forall j, j mod 4 <> 3 -> read data' j = read data j) ->
  grayscale data' width height = grayscale data width height.
Proof.
  intros Hlen Hsame. unfold grayscale. rewrite Hlen.
  apply fold_left_ext_in. intros gs i Hin.
  apply for_values_In in Hin; [|lia]. destruct Hin as [_ Hmod].
  rewrite Z.sub_0_r in Hmod.
  unfold gray_at.
  rewrite !Hsame; [reflexivity | | |].
  - rewrite <- Z.add_mod_idemp_l, Hmod by lia. discriminate.
  - rewrite <- Z.add_mod_idemp_l, Hmod by lia. discriminate.
  - rewrite Hmod. discriminate.
Qed.

(** On a pixel made of bytes the rounded luminance is a byte, so that the
    clamping of the store changes nothing. *)
Lemma gray_at_byte (data : list Z) (i r g b : Z) :
  read data i = Some r -> read data (i + 1) = Some g ->
  read data (i + 2) = Some b ->
  is_byte r -> is_byte g -> is_byte b ->
  exists z,
    gray_at data i = RInt z /\ is_byte z /\ ToUint8Clamp (gray_at data i) = z.
Proof.
  intros Hr Hg Hb Br Bg Bb.
  pose proof (luma_bytes_in_range r g b Br Bg Bb) as Hrange.
  unfold luma_in_range, rounds_to_byte in Hrange.
  apply andb_true_iff in Hrange.
  destruct Hrange as [Hlo Hhi].
  destruct (Math_round_byte _ Hlo Hhi) as (z & Hz & Bz).
  exists z. unfold gray_at. rewrite Hr, Hg, Hb, Hz.
  repeat split; try apply Bz.
  unfold ToUint8Clamp, is_byte in *. lia.
Qed.

(** ** Decimal digits *)

Lemma digits_onto_step (fuel : nat) (n : Z) (acc : string) :
  10 <= n ->
  digits_onto (S fuel) n acc
  = digits_onto fuel (n / 10) (String (digit_char (n mod 10)) acc).
Proof.
  intros Hn. cbn [digits_onto].
  destruct (n <? 10) eqn:Hlt; [apply Z.ltb_lt in Hlt; lia | reflexivity].
Qed.

(** The digits are put in front of what was there. *)
Lemma digits_onto_suffix (fuel : nat) :
  forall n acc,
    exists front,
      digits_onto fuel n acc = front ++ String (digit_char (n mod 10)) acc.
Proof.
  induction fuel as [|fuel IH]; intros n acc.
  - exists "". reflexivity.
  - cbn [digits_onto]. destruct (n <? 10); [exists ""; reflexivity|].
    destruct (IH (n / 10) (String (digit_char (n mod 10)) acc))
      as (front & ->).
    exists (front ++ String (digit_char (n / 10 mod 10)) "").
    now rewrite append_assoc.
Qed.

Lemma is_digit_digit_char (d : Z) :
  0 <= d < 10 -> is_digit (digit_char d) = true.
Proof.
  intros Hd.
  assert (d = 0 \/ d = 1 \/ d = 2 \/ d = 3 \/ d = 4 \/ d = 5 \/ d = 6
          \/ d = 7 \/ d = 8 \/ d = 9) as Hcases by lia.
  repeat (destruct Hcases as [-> | Hcases]; [reflexivity|]).
  subst d. reflexivity.
Qed.

Lemma last_six_digits_shape (n : Z) :
  String.length (last_six_digits n) = 6%nat
  /\ all_digits (last_six_digits n) = true.
Proof.
  split; [reflexivity|].
  unfold last_six_digits, decimal_digit. cbn [all_digits].
  rewrite !is_digit_digit_char by (apply Z.mod_pos_bound; lia).
  reflexivity.
Qed.

(** From a clock reading of six digits or more, [slice(-6)] keeps the
    digits of weights 10^5 down to 1. *)
Lemma slice_last_six (now : Z) :
  100000 <= now -> slice_last 6 (toString now) = last_six_digits now.
Proof.
  intros Hnow. unfold toString.
  destruct (now <? 0) eqn:Hneg; [apply Z.ltb_lt in Hneg; lia|].
  unfold digits.
  assert (16 <= Z.log2 now) as Hlog.
  { change 16 with (Z.log2 65536). apply Z.log2_le_mono. lia. }
  destruct (Z.to_nat (Z.log2 now)) as [|[|[|[|[|fuel]]]]] eqn:Hfuel;
    try lia.
  set (n1 := now / 10). set (n2 := n1 / 10). set (n3 := n2 / 10).
  set (n4 := n3 / 10). set (n5 := n4 / 10).
  assert (10000 <= n1) by (apply Z.div_le_lower_bound; lia).
  assert (1000 <= n2) by (apply Z.div_le_lower_bound; lia).
  assert (100 <= n3) by (apply Z.div_le_lower_bound; lia).
  assert (10 <= n4) by (apply Z.div_le_lower_bound; lia).
  rewrite (digits_onto_step _ now) by lia. fold n1.
  rewrite (digits_onto_step _ n1) by lia. fold n2.
  rewrite (digits_onto_step _ n2) by lia. fold n3.
  rewrite (digits_onto_step _ n3) by lia. fold n4.
  rewrite (digits_onto_step _ n4) by lia. fold n5.
  destruct (digits_onto_suffix fuel n5
              (String (digit_char (n4 mod 10))
                 (String (digit_char (n3 mod 10))
                    (String (digit_char (n2 mod 10))
                       (String (digit_char (n1 mod 10))
                          (String (digit_char (now mod 10)) ""))))))
    as (front & ->).
  unfold slice_last. rewrite length_append. cbn [String.length].
  replace (String.length front + 6 - 6)%nat with (String.length front) by lia.
  rewrite drop_append.
  unfold last_six_digits, decimal_digit.
  assert (n1 = now / 10 ^ 1) as <- by reflexivity.
  assert (n2 = now / 10 ^ 2) as <-
    by (unfold n2, n1; rewrite Z.div_div by lia; reflexivity).
  assert (n3 = now / 10 ^ 3) as <-
    by (unfold n3, n2, n1; rewrite !Z.div_div by lia; reflexivity).
  assert (n4 = now / 10 ^ 4) as <-
    by (unfold n4, n3, n2, n1; rewrite !Z.div_div by lia; reflexivity).
  assert (n5 = now / 10 ^ 5) as <-
    by (unfold n5, n4, n3, n2, n1; rewrite !Z.div_div by lia; reflexivity).
  change (10 ^ 0) with 1. rewrite Z.div_1_r. reflexivity.
Qed.

Lemma digit_char_value (d : Z) :
  0 <= d < 10 -> Z.of_N (N_of_ascii (digit_char d)) - 48 = d.
Proof.
  intros Hd. unfold digit_char.
  rewrite N_ascii_embedding by lia. lia.
Qed.

(** With fuel for every digit, the digits put in front write [n]. *)
Lemma digits_onto_value (fuel : nat) :
  forall n acc,
    0 <= n < 10 ^ (Z.of_nat fuel + 1) ->
    decimal_onto 0 (digits_onto fuel n acc) = decimal_onto n acc.
Proof.
  induction fuel as [|fuel IH]; intros n acc Hn.
  - change (10 ^ (Z.of_nat 0 + 1)) with 10 in Hn.
    cbn [digits_onto decimal_onto].
    rewrite digit_char_value, Z.mod_small by (rewrite ?Z.mod_small; lia).
    f_equal.
  - cbn [digits_onto].
    destruct (n <? 10) eqn:Hsmall.
    + apply Z.ltb_lt in Hsmall. cbn [decimal_onto].
      rewrite digit_char_value, Z.mod_small by (rewrite ?Z.mod_small; lia).
      f_equal.
    + apply Z.ltb_ge in Hsmall.
      rewrite IH.
      * cbn [decimal_onto].
        rewrite digit_char_value by (apply Z.mod_pos_bound; lia).
        f_equal. pose proof (Z.div_mod n 10 ltac:(lia)). lia.
      * split; [apply Z.div_pos; lia|].
        apply Z.div_lt_upper_bound; [lia|].
        replace (Z.of_nat (S fuel) + 1) with (Z.succ (Z.of_nat fuel + 1)) in Hn
          by lia.
        rewrite Z.pow_succ_r in Hn by lia. lia.
Qed.

(** [toString] writes its argument: the fuel of [digits] is enough. *)
Lemma toString_value (n : Z) : 0 <= n -> decimal_onto 0 (toString n) = n.
Proof.
  intros Hn. unfold toString.
  destruct (n <? 0) eqn:Hneg; [apply Z.ltb_lt in Hneg; lia|].
  unfold digits. rewrite digits_onto_value; [reflexivity|].
  split; [assumption|].
  rewrite Z2Nat.id by apply Z.log2_nonneg.
  destruct (Z.eq_dec n 0) as [-> | Hpos]; [reflexivity|].
  pose proof (Z.log2_spec n ltac:(lia)) as [_ Hlog].
  eapply Z.lt_le_trans; [exact Hlog|].
  replace (Z.succ (Z.log2 n)) with (Z.log2 n + 1) by lia.
  apply Z.pow_le_mono_l. lia.
Qed.

(** ** The candidate string *)

Lemma appended_length (chunk : string) :
  (String.length (appended chunk) <= 1)%nat.
Proof.
  unfold appended, fromCharCode.
  destruct (parseInt2 chunk) as [charCode|]; [|simpl; lia].
  destruct ((charCode >=? 32) && (charCode <=? 126)); simpl; lia.
Qed.

Lemma concat_appended_length (chunks : list string) :
  (String.length (String.concat "" (map appended chunks))
   <= List.length chunks)%nat.
Proof.
  induction chunks as [|chunk chunks IH]; [simpl; lia|].
  cbn [map List.length]. rewrite concat_empty_cons, length_append.
  pose proof (appended_length chunk). lia.
Qed.

(** At most twenty chunks are decoded, each into at most one character. *)
Lemma decodeChunks_length (chunks : list string) :
  (String.length (decodeChunks chunks) <= 20)%nat.
Proof.
  rewrite decodeChunks_concat.
  pose proof (concat_appended_length (firstn 20 chunks)).
  pose proof (firstn_le_length 20 chunks). lia.
Qed.

Lemma prefix_QR (rest : string) : String.prefix "QR_" ("QR_" ++ rest) = true.
Proof. cbn [append String.prefix]. now destruct rest. Qed.

Lemma regex_test_class (s : string) :
  regex_test s = true <-> s <> "" /\ all_in_class s = true.
Proof.
  destruct s as [|c s]; simpl; split.
  - discriminate.
  - intros [Hne _]. congruence.
  - intros H. split; [discriminate | assumption].
  - intros [_ H]. assumption.
Qed.

Lemma take_drop (n : nat) : forall s, take n s ++ drop n s = s.
Proof.
  induction n as [|n IH]; intros [|c s]; simpl; try reflexivity.
  now rewrite IH.
Qed.

(** The full chunks are consecutive pieces of the string, and fewer than
    eight characters are left after them. *)
Lemma full_chunks_from_split (fuel : nat) :
  forall s, (String.length s <= fuel)%nat ->
    exists rest,
      s = String.concat "" (full_chunks_from fuel s) ++ rest
      /\ (String.length rest < 8)%nat.
Proof.
  induction fuel as [|fuel IH]; intros s Hlen.
  - exists s. split; [reflexivity | lia].
  - cbn [full_chunks_from].
    destruct (Nat.leb_spec 8 (String.length s)) as [Hge | Hlt].
    + destruct (IH (drop 8 s)) as (rest & Heq & Hrest).
      { rewrite length_drop. lia. }
      exists rest. split; [|assumption].
      rewrite concat_empty_cons, append_assoc, <- Heq.
      symmetry. apply take_drop.
    + exists s. split; [reflexivity | assumption].
Qed.

(** ** Two boundaries of the statements below *)

(** The regular expression keeps what is left after the last full chunk:
    on a string of seven bits, which no walk produces, that short chunk is
    decoded although it is not a full chunk. *)
Remark short_chunk_is_matched :
  match_1_8 "1000001" = ["1000001"]
  /\ decodeChunks (match_1_8 "1000001") = "A"
  /\ decode_spec "1000001" = "".
Proof. repeat split; reflexivity. Qed.

(** The test of line 34 uses [>=]: a window that ends exactly at the edge
    of the buffer is rejected although all its cells are inside it.  The
    locator never asks for such a window. *)
Remark window_at_edge_is_rejected :
  window_fits 0 0 7 7
  /\ finder_rule finder_frame 7 128 0 0
  /\ isFinderPattern finder_frame 0 0 7 7 128 = false.
Proof.
  split; [unfold window_fits; lia|].
  split; [|reflexivity].
  split; vm_compute; lia.
Qed.

(** * The claims *)

(** C1.  The detection core returns no result exactly when the scan finds
    fewer than three candidates; with three or more it returns a result
    that carries a data string, and there is no third outcome. *)
Theorem detect_absent_iff_few_candidates
    (gray : list Z) (width height threshold now : Z) :
  (detect gray width height threshold now = None
   <-> (List.length (findPatterns gray width height threshold) < 3)%nat)
  /\ ((3 <= List.length (findPatterns gray width height threshold))%nat ->
      exists s, detect gray width height threshold now = Some (mkResult s)).
Proof.
  unfold detect.
  destruct (Nat.leb_spec 3
              (List.length (findPatterns gray width height threshold)))
    as [Hge | Hlt].
  - split.
    + split; [|lia].
      destruct ((3 <? String.length _)%nat && regex_test _); discriminate.
    + intros _.
      destruct ((3 <? String.length _)%nat && regex_test _); eauto.
  - split; [tauto | lia].
Qed.

(** C2.  On every bit string produced by the walk over the centre, the
    string assembled by the extractor is the one obtained by cutting the
    bits into consecutive chunks of eight characters, dropping what is left
    after the last full chunk, keeping the first twenty chunks, and turning
    each into its character exactly when its base-2 value lies in
    [32, 126]. *)
Theorem candidate_string_from_full_chunks
    (gray : list Z) (width height threshold : Z) :
  let bits := extractBits gray width height threshold in
  candidateString gray width height threshold
  = String.concat "" (map chunk_char (firstn 20 (full_chunks bits)))
  /\ (forall chunk, In chunk (full_chunks bits) ->
        String.length chunk = 8%nat)
  /\ (exists rest,
        bits = String.concat "" (full_chunks bits) ++ rest
        /\ (String.length rest < 8)%nat)
  /\ (forall chunk, In chunk (full_chunks bits) ->
        let v := binary_value chunk in
        (32 <= v <= 126 -> chunk_char chunk = fromCharCode v)
        /\ (~ 32 <= v <= 126 -> chunk_char chunk = "")).
Proof.
  intros bits.
  split; [apply candidate_decode_spec|].
  split.
  { intros chunk Hin.
    eapply full_chunks_from_bits in Hin; [apply Hin|].
    apply extractBits_shape. }
  split; [apply full_chunks_from_split; lia|].
  intros chunk _ v. unfold chunk_char, fromCharCode. fold v.
  split; intros Hv;
    destruct (Z.leb_spec 32 v), (Z.leb_spec v 126); try lia; reflexivity.
Qed.

(** C3.  For a luminance buffer of [w * h] samples and a window origin in
    bounds, the window is classified as a finder pattern if and only if at
    least 20 of the cells of the border ring and the inner core are dark
    (below the threshold) and at least 8 of the 16 cells of the middle ring
    are light (at or above it). *)
Theorem isFinderPattern_iff_rule (gray : list Z) (w h thresh x y : Z) :
  Z.of_nat (List.length gray) = w * h ->
  0 <= x <= w - 8 ->
  0 <= y <= h - 8 ->
  (isFinderPattern gray x y w h thresh = true
   <-> (20 <= dark_count gray w thresh x y)%nat
       /\ (8 <= light_count gray w thresh x y)%nat).
Proof.
  intros Hlen Hx Hy. now apply classifier_rule.
Qed.

Lemma isFinderPattern_iff_rule_witness :
  isFinderPattern small_frame 9 0 48 32 128 = true
  <-> (20 <= dark_count small_frame 48 128 9 0)%nat
      /\ (8 <= light_count small_frame 48 128 9 0)%nat.
Proof.
  apply (isFinderPattern_iff_rule small_frame 48 32 128 9 0).
  - vm_compute. reflexivity.
  - lia.
  - lia.
Defined.

(** C4.  The locator returns exactly the grid points (both coordinates
    multiples of 3, [x] in [0, width - 21), [y] in [0, height - 21)) whose
    window passes the classification rule, in row-major order, and the
    empty sequence when no window qualifies. *)
Theorem findPatterns_exact (gray : list Z) (width height threshold : Z) :
  Z.of_nat (List.length gray) = width * height ->
  (forall p,
      In p (findPatterns gray width height threshold)
      <-> (x_of p mod 3 = 0 /\ 0 <= x_of p < width - 21)
          /\ (y_of p mod 3 = 0 /\ 0 <= y_of p < height - 21)
          /\ finder_rule gray width threshold (x_of p) (y_of p))
  /\ StronglySorted row_major_lt (findPatterns gray width height threshold)
  /\ ((forall x y, on_grid width x -> on_grid height y ->
         ~ finder_rule gray width threshold x y) ->
      findPatterns gray width height threshold = []).
Proof.
  intros Hlen.
  assert (forall p,
             In p (findPatterns gray width height threshold)
             <-> on_grid width (x_of p) /\ on_grid height (y_of p)
                 /\ finder_rule gray width threshold (x_of p) (y_of p))
    as Hin.
  { intros p. rewrite findPatterns_In.
    split; intros (Hx & Hy & H); (split; [exact Hx | split; [exact Hy|]]);
      apply (classifier_rule gray width height threshold _ _ Hlen
               (grid_in_bounds _ _ Hx) (grid_in_bounds _ _ Hy));
      exact H. }
  split; [exact Hin|].
  split; [apply findPatterns_sorted|].
  intros Hnone.
  destruct (findPatterns gray width height threshold) as [|p rest] eqn:Hfound;
    [reflexivity|].
  destruct (proj1 (Hin p) (or_introl eq_refl)) as (Hx & Hy & Hrule).
  exfalso. exact (Hnone _ _ Hx Hy Hrule).
Qed.

Lemma findPatterns_exact_witness :
  (forall p,
      In p (findPatterns small_frame 48 32 128)
      <-> (x_of p mod 3 = 0 /\ 0 <= x_of p < 48 - 21)
          /\ (y_of p mod 3 = 0 /\ 0 <= y_of p < 32 - 21)
          /\ finder_rule small_frame 48 128 (x_of p) (y_of p))
  /\ StronglySorted row_major_lt (findPatterns small_frame 48 32 128)
  /\ ((forall x y, on_grid 48 x -> on_grid 32 y ->
         ~ finder_rule small_frame 48 128 x y) ->
      findPatterns small_frame 48 32 128 = []).
Proof.
  apply (findPatterns_exact small_frame 48 32 128).
  vm_compute. reflexivity.
Defined.

(** C5.  With at least three candidates and a candidate string that fails
    the test of step 5, the result is ["QR_"], the first three candidates
    written ["x-y"] and joined by ["_"], then ["_"] and the last six
    characters of the decimal clock reading; from a reading of six digits
    on (any time later than 100 seconds after the epoch) these are its
    last six digits, so the data ends in exactly six digits after the
    ["_"]. *)
Theorem fallback_identifier
    (gray : list Z) (width height threshold now : Z) :
  (3 <= List.length (findPatterns gray width height threshold))%nat ->
  ~ ((3 < String.length (candidateString gray width height threshold))%nat
     /\ all_in_class (candidateString gray width height threshold) = true) ->
  exists p1 p2 p3 rest,
    findPatterns gray width height threshold = p1 :: p2 :: p3 :: rest
    /\ detect gray width height threshold now
       = Some (mkResult
                 ("QR_" ++ (toString (x_of p1) ++ "-" ++ toString (y_of p1))
                  ++ "_" ++ (toString (x_of p2) ++ "-" ++ toString (y_of p2))
                  ++ "_" ++ (toString (x_of p3) ++ "-" ++ toString (y_of p3))
                  ++ "_" ++ slice_last 6 (toString now)))
    /\ (100000 <= now ->
        slice_last 6 (toString now) = last_six_digits now
        /\ String.length (last_six_digits now) = 6%nat
        /\ all_digits (last_six_digits now) = true).
Proof.
  intros Hthree Hfail. unfold detect.
  destruct (findPatterns gray width height threshold)
    as [|p1 [|p2 [|p3 rest]]] eqn:Hfound; simpl in Hthree; try lia.
  exists p1, p2, p3, rest. split; [reflexivity|]. split.
  - cbn [List.length Nat.leb].
    destruct ((3 <? String.length _)%nat && regex_test _) eqn:Htest.
    + exfalso. apply Hfail.
      apply andb_true_iff in Htest. destruct Htest as [Hlen Hre].
      apply Nat.ltb_lt in Hlen. apply regex_test_class in Hre.
      split; [assumption | apply Hre].
    + unfold fallbackId, patternHash, formatPattern.
      cbn [firstn map String.concat]. rewrite !append_assoc. reflexivity.
  - intros Hnow. split; [now apply slice_last_six|].
    apply last_six_digits_shape.
Qed.

Lemma fallback_identifier_witness :
  exists p1 p2 p3 rest,
    findPatterns small_frame 48 32 128 = p1 :: p2 :: p3 :: rest
    /\ detect small_frame 48 32 128 1793577600123
       = Some (mkResult
                 ("QR_" ++ (toString (x_of p1) ++ "-" ++ toString (y_of p1))
                  ++ "_" ++ (toString (x_of p2) ++ "-" ++ toString (y_of p2))
                  ++ "_" ++ (toString (x_of p3) ++ "-" ++ toString (y_of p3))
                  ++ "_" ++ slice_last 6 (toString 1793577600123)))
    /\ (100000 <= 1793577600123 ->
        slice_last 6 (toString 1793577600123)
        = last_six_digits 1793577600123
        /\ String.length (last_six_digits 1793577600123) = 6%nat
        /\ all_digits (last_six_digits 1793577600123) = true).
Proof.
  apply (fallback_identifier small_frame 48 32 128 1793577600123).
  - vm_compute. lia.
  - vm_compute. intros [Hlen _]. lia.
Defined.

(** C6.  With at least three candidates, a candidate string longer than
    three characters and made of characters of [[A-Za-z0-9\-_]] only is
    returned as the data of the result. *)
Theorem readable_string_returned
    (gray : list Z) (width height threshold now : Z) :
  (3 <= List.length (findPatterns gray width height threshold))%nat ->
  (3 < String.length (candidateString gray width height threshold))%nat ->
  all_in_class (candidateString gray width height threshold) = true ->
  detect gray width height threshold now
  = Some (mkResult (candidateString gray width height threshold)).
Proof.
  intros Hthree Hlen Hclass. unfold detect.
  apply Nat.leb_le in Hthree. rewrite Hthree.
  assert (regex_test (candidateString gray width height threshold) = true)
    as Hre.
  { apply regex_test_class. split; [|assumption].
    intros Hempty. rewrite Hempty in Hlen. simpl in Hlen. lia. }
  apply Nat.ltb_lt in Hlen. rewrite Hlen, Hre. reflexivity.
Qed.

Lemma readable_string_returned_witness :
  candidateString readable_frame 120 120 128 = "A1_z"
  /\ detect readable_frame 120 120 128 1793577600123
     = Some (mkResult (candidateString readable_frame 120 120 128)).
Proof.
  assert (candidateString readable_frame 120 120 128 = "A1_z") as Hcand
    by (vm_compute; reflexivity).
  split; [exact Hcand|].
  apply (readable_string_returned readable_frame 120 120 128 1793577600123).
  - eapply Nat.le_trans; [|apply findPatterns_first_row; reflexivity].
    vm_compute. lia.
  - rewrite Hcand. simpl. lia.
  - rewrite Hcand. reflexivity.
Defined.

(** C7.  For an RGBA buffer of [width * height * 4] bytes, the converter
    yields [width * height] samples; sample [i] is
    [Math.round(0.299 R + 0.587 G + 0.114 B)] of pixel [i], computed in
    double precision as the source does; it lies in [0, 255]; and the
    alpha samples have no effect on the output. *)
Theorem grayscale_conversion (rgba : list Z) (width height : Z) :
  0 < width -> 0 < height ->
  Z.of_nat (List.length rgba) = width * height * 4 ->
  Forall is_byte rgba ->
  Z.of_nat (List.length (grayscale rgba width height)) = width * height
  /\ (forall i, 0 <= i < width * height ->
        exists r g b z,
          read rgba (4 * i) = Some r /\ read rgba (4 * i + 1) = Some g
          /\ read rgba (4 * i + 2) = Some b
          /\ Math_round (luma (to_number (Some r)) (to_number (Some g))
                              (to_number (Some b))) = RInt z
          /\ read (grayscale rgba width height) i = Some z
          /\ 0 <= z <= 255)
  /\ (forall rgba',
        List.length rgba' = List.length rgba ->
        (forall j, j mod 4 <> 3 -> read rgba' j = read rgba j) ->
        grayscale rgba' width height = grayscale rgba width height).
Proof.
  intros Hw Hh Hlen Hbytes.
  split; [rewrite grayscale_length; nia|].
  split; [|intros rgba'; apply grayscale_alpha].
  intros i Hi.
  assert (forall k, 0 <= k < width * height * 4 ->
            exists v, read rgba k = Some v /\ is_byte v) as Hread.
  { intros k Hk. exists (nth (Z.to_nat k) rgba 0).
    split; [apply read_nth; lia|].
    rewrite Forall_forall in Hbytes. apply Hbytes, nth_In. lia. }
  destruct (Hread (4 * i) ltac:(lia)) as (r & Hr & Br).
  destruct (Hread (4 * i + 1) ltac:(lia)) as (g & Hg & Bg).
  destruct (Hread (4 * i + 2) ltac:(lia)) as (b & Hb & Bb).
  destruct (gray_at_byte rgba (4 * i) r g b Hr Hg Hb Br Bg Bb)
    as (z & Hz & Bz & Hclamp).
  exists r, g, b, z.
  repeat (split; [assumption|]).
  split.
  - unfold gray_at in Hz. rewrite Hr, Hg, Hb in Hz. exact Hz.
  - split; [|exact Bz].
    rewrite (grayscale_sample rgba width height i Hlen Hi).
    now rewrite Hclamp.
Qed.

Lemma grayscale_conversion_witness :
  Z.of_nat (List.length (grayscale [0; 36; 12; 255; 200; 100; 50; 0] 2 1))
  = 2 * 1
  /\ (forall i, 0 <= i < 2 * 1 ->
        exists r g b z,
          read [0; 36; 12; 255; 200; 100; 50; 0] (4 * i) = Some r
          /\ read [0; 36; 12; 255; 200; 100; 50; 0] (4 * i + 1) = Some g
          /\ read [0; 36; 12; 255; 200; 100; 50; 0] (4 * i + 2) = Some b
          /\ Math_round (luma (to_number (Some r)) (to_number (Some g))
                              (to_number (Some b))) = RInt z
          /\ read (grayscale [0; 36; 12; 255; 200; 100; 50; 0] 2 1) i
             = Some z
          /\ 0 <= z <= 255)
  /\ (forall rgba',
        List.length rgba' = List.length [0; 36; 12; 255; 200; 100; 50; 0] ->
        (forall j, j mod 4 <> 3 ->
           read rgba' j = read [0; 36; 12; 255; 200; 100; 50; 0] j) ->
        grayscale rgba' 2 1
        = grayscale [0; 36; 12; 255; 200; 100; 50; 0] 2 1).
Proof.
  apply (grayscale_conversion [0; 36; 12; 255; 200; 100; 50; 0] 2 1).
  - lia.
  - lia.
  - reflexivity.
  - repeat constructor; unfold is_byte; lia.
Defined.

(** C8.  The data of a result is never empty: it is either a string of 4 to
    20 characters of [[A-Za-z0-9\-_]] (the string read from the image) or a
    string that begins with ["QR_"] (the synthesised identifier). *)
Theorem detect_data_shape
    (gray : list Z) (width height threshold now : Z) (r : DetectionResult) :
  detect gray width height threshold now = Some r ->
  data r <> ""
  /\ (((4 <= String.length (data r) <= 20)%nat
       /\ all_in_class (data r) = true)
      \/ String.prefix "QR_" (data r) = true).
Proof.
  unfold detect.
  destruct (3 <=? List.length _)%nat; [|discriminate].
  destruct ((3 <? String.length _)%nat && regex_test _) eqn:Htest;
    intros [= <-]; cbn [data].
  - apply andb_true_iff in Htest. destruct Htest as [Hlen Hre].
    apply Nat.ltb_lt in Hlen. apply regex_test_class in Hre.
    destruct Hre as [Hne Hclass].
    split; [assumption|]. left. split; [|assumption].
    pose proof (decodeChunks_length
                  (match_1_8 (extractBits gray width height threshold))).
    unfold candidateString in *. lia.
  - unfold fallbackId. split; [discriminate|]. right.
    apply prefix_QR.
Qed.

Lemma detect_data_shape_witness :
  data (mkResult "QR_0-0_3-0_6-0_600123") <> ""
  /\ (((4 <= String.length (data (mkResult "QR_0-0_3-0_6-0_600123"))
        <= 20)%nat
       /\ all_in_class (data (mkResult "QR_0-0_3-0_6-0_600123")) = true)
      \/ String.prefix "QR_" (data (mkResult "QR_0-0_3-0_6-0_600123"))
         = true).
Proof.
  apply (detect_data_shape small_frame 48 32 128 1793577600123).
  vm_compute. reflexivity.
Defined.

(** C9.  The coordinates of every candidate lie in
    [0, width - 8] x [0, height - 8], so that its 7x7 window fits in the
    buffer; and a window at a pixel origin that would reach beyond the
    buffer is rejected by the test of line 34, before any cell is read. *)
Theorem candidates_fit_window
    (gray : list Z) (width height threshold : Z) :
  (forall p, In p (findPatterns gray width height threshold) ->
     0 <= x_of p <= width - 8 /\ 0 <= y_of p <= height - 8
     /\ window_fits (x_of p) (y_of p) width height)
  /\ (forall x y, 0 <= x -> 0 <= y -> ~ window_fits x y width height ->
        out_of_window x y width height = true
        /\ isFinderPattern gray x y width height threshold = false).
Proof.
  split.
  - intros p Hin. apply findPatterns_In in Hin.
    destruct Hin as (Hx & Hy & _).
    apply grid_in_bounds in Hx, Hy. unfold window_fits. lia.
  - intros x y Hx Hy Hout.
    assert (out_of_window x y width height = true) as Hguard.
    { unfold out_of_window. rewrite !Z.geb_leb.
      apply orb_true_iff. rewrite !Z.leb_le.
      unfold window_fits in Hout. lia. }
    split; [assumption|].
    unfold isFinderPattern. now rewrite Hguard.
Qed.

(** C10.  At every point generated by the loops of the locator the test of
    line 34 is false: the early return of the classifier is never taken
    there, and the window is always classified. *)
Theorem grid_point_always_classified
    (gray : list Z) (width height threshold x y : Z) :
  In x (for_values 0 (width - minQRSize) 3) ->
  In y (for_values 0 (height - minQRSize) 3) ->
  out_of_window x y width height = false
  /\ isFinderPattern gray x y width height threshold
     = classify gray x y width threshold.
Proof.
  intros Hx Hy. apply grid_values, grid_in_bounds in Hx, Hy.
  assert (out_of_window x y width height = false) as Hguard
    by now apply out_of_window_in_bounds.
  split; [assumption|].
  unfold isFinderPattern. now rewrite Hguard.
Qed.

Lemma grid_point_always_classified_witness :
  out_of_window 24 3 48 32 = false
  /\ isFinderPattern small_frame 24 3 48 32 128
     = classify small_frame 24 3 48 128.
Proof.
  apply (grid_point_always_classified small_frame 48 32 128 24 3).
  - vm_compute. tauto.
  - vm_compute. tauto.
Defined.


(** * Further properties of the detector *)

(** ** Frames without candidates *)

Lemma for_values_empty (start stop step : Z) :
  0 < step -> stop <= start -> for_values start stop step = [].
Proof.
  intros Hstep Hstop. apply length_zero_iff_nil.
  rewrite for_values_length by assumption.
  assert ((stop - start + step - 1) / step <= 0)
    by (apply Z.lt_succ_r, Z.div_lt_upper_bound; lia).
  lia.
Qed.

Lemma flat_map_nil {A B : Type} (l : list A) :
  flat_map (fun _ : A => @nil B) l = [].
Proof. induction l as [|a l IH]; [reflexivity | exact IH]. Qed.

Lemma findPatterns_narrow (gray : list Z) (width height threshold : Z) :
  width <= 21 \/ height <= 21 ->
  findPatterns gray width height threshold = [].
Proof.
  intros [Hw | Hh]; unfold findPatterns, minQRSize.
  - rewrite (for_values_empty 0 (width - 21)) by lia.
    apply flat_map_nil.
  - rewrite (for_values_empty 0 (height - 21)) by lia. reflexivity.
Qed.

Lemma detect_no_candidates (gray : list Z) (width height threshold now : Z) :
  findPatterns gray width height threshold = [] ->
  detect gray width height threshold now = None.
Proof. intros Hnone. unfold detect. now rewrite Hnone. Qed.

(** X1.  A frame that is not wider than 21 pixels, or not higher, has no
    grid point at all: whatever its pixels, the scan finds nothing and
    [jsQR] returns [null]. *)
Theorem jsQR_narrow_frame (rgba : list Z) (width height now : Z) :
  width <= 21 \/ height <= 21 ->
  0 <= width * height ->
  (forall gray threshold, findPatterns gray width height threshold = [])
  /\ jsQR rgba width height now = Returned None.
Proof.
  intros Hnarrow Harea. split.
  - intros gray threshold. now apply findPatterns_narrow.
  - unfold jsQR.
    destruct (width * height <? 0) eqn:Hneg; [apply Z.ltb_lt in Hneg; lia|].
    f_equal. apply detect_no_candidates. now apply findPatterns_narrow.
Qed.

Lemma jsQR_narrow_frame_witness :
  (forall gray threshold, findPatterns gray 21 4000 threshold = [])
  /\ jsQR (frame 21 4000 finder_cell) 21 4000 1793577600123 = Returned None.
Proof.
  apply (jsQR_narrow_frame (frame 21 4000 finder_cell) 21 4000 1793577600123).
  - left. lia.
  - lia.
Defined.

(** ** The number of candidates *)

Lemma StronglySorted_NoDup {A : Type} (R : A -> A -> Prop) (l : list A) :
  (forall a, ~ R a a) -> StronglySorted R l -> NoDup l.
Proof.
  intros Hirr Hsorted.
  induction Hsorted as [|a l Hs IH Hall]; constructor; [|exact IH].
  intros Hin. rewrite Forall_forall in Hall. exact (Hirr a (Hall a Hin)).
Qed.

Lemma flat_map_length_le {A B : Type} (f : A -> list B) (n : nat)
    (l : list A) :
  (forall a, (List.length (f a) <= n)%nat) ->
  (List.length (flat_map f l) <= List.length l * n)%nat.
Proof.
  intros Hf. induction l as [|a l IH]; simpl; [lia|].
  rewrite length_app. specialize (Hf a). lia.
Qed.

Lemma grid_size (n : Z) :
  Z.of_nat (List.length (for_values 0 (n - minQRSize) 3))
  = Z.max 0 ((n - 19) / 3).
Proof.
  rewrite for_values_length by lia. unfold minQRSize.
  replace (n - 21 - 0 + 3 - 1) with (n - 19) by lia.
  destruct (Z.max_spec 0 ((n - 19) / 3)) as [[Hlt ->] | [Hge ->]]; lia.
Qed.

(** X2.  No candidate is reported twice, and there are at most as many
    candidates as grid points: [(width - 19) / 3] columns times
    [(height - 19) / 3] rows (integer division, none when negative). *)
Theorem findPatterns_count (gray : list Z) (width height threshold : Z) :
  NoDup (findPatterns gray width height threshold)
  /\ Z.of_nat (List.length (findPatterns gray width height threshold))
     <= Z.max 0 ((width - 19) / 3) * Z.max 0 ((height - 19) / 3).
Proof.
  split.
  - apply (StronglySorted_NoDup row_major_lt); [|apply findPatterns_sorted].
    intros p. unfold row_major_lt. lia.
  - rewrite <- !grid_size. unfold findPatterns.
    set (xs := for_values 0 (width - minQRSize) 3).
    set (ys := for_values 0 (height - minQRSize) 3).
    assert (List.length
              (flat_map
                 (fun y =>
                    flat_map
                      (fun x =>
                         if isFinderPattern gray x y width height threshold
                         then [mkPattern x y] else [])
                      xs)
                 ys)
            <= List.length ys * List.length xs)%nat as Hle.
    { apply flat_map_length_le. intros y.
      replace (List.length xs) with (List.length xs * 1)%nat by lia.
      apply flat_map_length_le. intros x.
      destruct (isFinderPattern gray x y width height threshold); simpl; lia. }
    nia.
Qed.

(** ** Frames that are all light or all dark *)

Lemma read_In (arr : list Z) (idx v : Z) : read arr idx = Some v -> In v arr.
Proof.
  unfold read. destruct (idx <? 0); [discriminate|]. apply nth_error_In.
Qed.

Lemma filter_none {A : Type} (f : A -> bool) (l : list A) :
  (forall a, In a l -> f a = false) -> filter f l = [].
Proof.
  intros Hf. induction l as [|a l IH]; [reflexivity|].
  simpl. rewrite Hf by now left. apply IH. intros; apply Hf; now right.
Qed.

(** The classifier needs both dark and light samples. *)
Lemma classify_one_sided (gray : list Z) (x y w thresh : Z) :
  Forall (fun v => thresh <= v) gray \/ Forall (fun v => v < thresh) gray ->
  classify gray x y w thresh = false.
Proof.
  intros Hside. rewrite classify_counts.
  destruct Hside as [Hlight | Hdark]; rewrite Forall_forall in *.
  - rewrite (filter_none (dark_hit gray x y w thresh)); [reflexivity|].
    intros [dy dx] _. unfold dark_hit, js_lt.
    destruct (read gray _) as [v|] eqn:Hread; [|apply andb_false_r].
    apply read_In, Hlight in Hread.
    replace (v <? thresh) with false by (symmetry; apply Z.ltb_ge; lia).
    apply andb_false_r.
  - rewrite (filter_none (light_hit gray x y w thresh));
      [apply andb_false_r|].
    intros [dy dx] _. unfold light_hit, js_ge.
    destruct (read gray _) as [v|] eqn:Hread; [|apply andb_false_r].
    apply read_In, Hdark in Hread.
    replace (v >=? thresh) with false
      by (symmetry; rewrite Z.geb_leb; apply Z.leb_gt; lia).
    apply andb_false_r.
Qed.

Lemma findPatterns_one_sided (gray : list Z) (width height thresh : Z) :
  Forall (fun v => thresh <= v) gray \/ Forall (fun v => v < thresh) gray ->
  findPatterns gray width height thresh = [].
Proof.
  intros Hside. unfold findPatterns.
  rewrite (flat_map_ext _ (fun _ => [])); [apply flat_map_nil|].
  intros y. rewrite (flat_map_ext _ (fun _ => [])); [apply flat_map_nil|].
  intros x. unfold isFinderPattern.
  rewrite classify_one_sided by assumption.
  now destruct (out_of_window x y width height).
Qed.

(** X3.  A luminance buffer whose samples are all at or above the threshold,
    or all below it, has no finder pattern anywhere: no window is accepted,
    the scan is empty and the detection core returns no result, whatever
    the dimensions and the length of the buffer. *)
Theorem one_sided_buffer_not_detected
    (gray : list Z) (width height thresh : Z) :
  Forall (fun v => thresh <= v) gray \/ Forall (fun v => v < thresh) gray ->
  (forall x y, isFinderPattern gray x y width height thresh = false)
  /\ findPatterns gray width height thresh = []
  /\ (forall now, detect gray width height thresh now = None).
Proof.
  intros Hside. split; [|split].
  - intros x y. unfold isFinderPattern.
    rewrite classify_one_sided by assumption.
    now destruct (out_of_window x y width height).
  - now apply findPatterns_one_sided.
  - intros now. apply detect_no_candidates. now apply findPatterns_one_sided.
Qed.

Lemma one_sided_buffer_not_detected_witness :
  (forall x y, isFinderPattern (repeat 128 900) x y 30 30 128 = false)
  /\ findPatterns (repeat 128 900) 30 30 128 = []
  /\ (forall now, detect (repeat 128 900) 30 30 128 now = None).
Proof.
  apply (one_sided_buffer_not_detected (repeat 128 900) 30 30 128).
  left. apply Forall_forall. intros v Hin.
  apply repeat_spec in Hin. lia.
Defined.

(** ** Buffers of the wrong length, and gray pixels *)

Lemma store_beyond (arr : list Z) :
  forall n v, (List.length arr <= n)%nat -> store arr n v = arr.
Proof.
  induction arr as [|a arr IH]; intros [|n] v Hn; simpl in *;
    try reflexivity; try lia.
  rewrite IH by lia. reflexivity.
Qed.

Section Turns.
Variable data : list Z.

Let turn (gs : list Z) (i : Z) : list Z :=
  store gs (Z.to_nat (i / 4)) (ToUint8Clamp (gray_at data i)).

Let indices (n : nat) : list Z :=
  map (fun k => 0 + 4 * Z.of_nat k) (seq 0 n).

Lemma turn_index (gs : list Z) (n : nat) :
  turn gs (0 + 4 * Z.of_nat n)
  = store gs n (ToUint8Clamp (gray_at data (4 * Z.of_nat n))).
Proof.
  unfold turn. rewrite Z.add_0_l.
  replace (Z.to_nat (4 * Z.of_nat n / 4)) with n
    by (rewrite Z.mul_comm, Z.div_mul by lia; lia).
  reflexivity.
Qed.

(** After [n] turns of the loop, sample [j] is the luminance of pixel [j]
    if the loop went that far and the array is that long, and is untouched
    otherwise. *)
Lemma turns_sample (n : nat) :
  forall gs j,
    nth_error (fold_left turn (indices n) gs) j
    = if (j <? n)%nat && (j <? List.length gs)%nat
      then Some (ToUint8Clamp (gray_at data (4 * Z.of_nat j)))
      else nth_error gs j.
Proof.
  induction n as [|n IH]; intros gs j; [reflexivity|].
  unfold indices. rewrite seq_S, map_app, fold_left_app.
  cbn [map fold_left Nat.add]. fold (indices n).
  rewrite turn_index.
  set (done := fold_left turn (indices n) gs).
  assert (List.length done = List.length gs) as Hlen
    by apply conversion_length.
  destruct (Nat.eq_dec j n) as [-> | Hne].
  - destruct (Nat.ltb_spec n (List.length gs)) as [Hin | Hout].
    + rewrite nth_error_store_same by lia.
      replace (n <? S n)%nat with true by (symmetry; apply Nat.ltb_lt; lia).
      reflexivity.
    + rewrite store_beyond by lia. unfold done. rewrite IH.
      rewrite Nat.ltb_irrefl, andb_false_r. reflexivity.
  - rewrite nth_error_store_other by assumption.
    unfold done. rewrite IH.
    replace (j <? S n)%nat with (j <? n)%nat; [reflexivity|].
    destruct (Nat.ltb_spec j n), (Nat.ltb_spec j (S n)); try reflexivity; lia.
Qed.
End Turns.

(** Every sample of the output, for a buffer of any length. *)
Lemma grayscale_read (rgba : list Z) (width height i : Z) :
  0 <= i < width * height ->
  read (grayscale rgba width height) i
  = Some (if 4 * i <? Z.of_nat (List.length rgba)
          then ToUint8Clamp (gray_at rgba (4 * i)) else 0).
Proof.
  intros Hi. unfold read.
  destruct (i <? 0) eqn:Hneg; [apply Z.ltb_lt in Hneg; lia|].
  unfold grayscale. rewrite for_values_seq by lia.
  rewrite turns_sample, repeat_length.
  set (n := Z.to_nat ((Z.of_nat (List.length rgba) - 0 + 4 - 1) / 4)).
  assert (Z.of_nat n = (Z.of_nat (List.length rgba) + 3) / 4) as Hn.
  { unfold n. rewrite Z2Nat.id; [f_equal; lia|]. apply Z.div_pos; lia. }
  replace (Z.to_nat i <? Z.to_nat (width * height))%nat with true
    by (symmetry; apply Nat.ltb_lt; lia).
  rewrite andb_true_r.
  destruct (Z.ltb_spec (4 * i) (Z.of_nat (List.length rgba))) as [Hin | Hout].
  - replace (Z.to_nat i <? n)%nat with true.
    + rewrite Z2Nat.id by lia. reflexivity.
    + symmetry. apply Nat.ltb_lt.
      assert (i + 1 <= (Z.of_nat (List.length rgba) + 3) / 4)
        by (apply Z.div_le_lower_bound; lia).
      lia.
  - replace (Z.to_nat i <? n)%nat with false.
    + rewrite nth_error_repeat by lia. reflexivity.
    + symmetry. apply Nat.ltb_ge.
      assert ((Z.of_nat (List.length rgba) + 3) / 4 < i + 1)
        by (apply Z.div_lt_upper_bound; lia).
      lia.
Qed.

(** [NaN] spreads through the formula. *)
Lemma Prim2SF_nan : Prim2SF PrimFloat.nan = S754_nan.
Proof. vm_compute. reflexivity. Qed.

Lemma mul_nan (a f : float) :
  Prim2SF f = S754_nan -> Prim2SF (a * f)%float = S754_nan.
Proof.
  intros Hf. rewrite mul_spec, Hf. unfold SF64mul, SFmul.
  now destruct (Prim2SF a).
Qed.

Lemma add_nan_l (f g : float) :
  Prim2SF f = S754_nan -> Prim2SF (f + g)%float = S754_nan.
Proof. intros Hf. rewrite add_spec, Hf. reflexivity. Qed.

Lemma add_nan_r (f g : float) :
  Prim2SF g = S754_nan -> Prim2SF (f + g)%float = S754_nan.
Proof.
  intros Hg. rewrite add_spec, Hg. unfold SF64add, SFadd.
  now destruct (Prim2SF f).
Qed.

Lemma gray_at_missing (data : list Z) (i : Z) :
  read data i = None \/ read data (i + 1) = None \/ read data (i + 2) = None ->
  gray_at data i = RNaN.
Proof.
  intros Hmissing. unfold gray_at, Math_round, luma.
  assert (Prim2SF
            (0.299 * to_number (read data i)
             + 0.587 * to_number (read data (i + 1))
             + 0.114 * to_number (read data (i + 2)))%float = S754_nan) as ->;
    [|reflexivity].
  destruct Hmissing as [-> | [-> | ->]]; cbn [to_number].
  - apply add_nan_l, add_nan_l, mul_nan, Prim2SF_nan.
  - apply add_nan_l, add_nan_r, mul_nan, Prim2SF_nan.
  - apply add_nan_r, mul_nan, Prim2SF_nan.
Qed.

Lemma read_beyond (arr : list Z) (idx : Z) :
  Z.of_nat (List.length arr) <= idx -> read arr idx = None.
Proof.
  intros Hidx. unfold read. destruct (idx <? 0); [reflexivity|].
  apply nth_error_None. lia.
Qed.

(** X4.  A buffer that ends before the blue sample of pixel [i] raises no
    error: the sample of that pixel is 0, either because the loop never
    reaches it or because the missing channel makes the luminance [NaN],
    which the clamped array stores as 0. *)
Theorem grayscale_truncated_buffer (rgba : list Z) (width height i : Z) :
  0 <= i < width * height ->
  Z.of_nat (List.length rgba) <= 4 * i + 2 ->
  read (grayscale rgba width height) i = Some 0.
Proof.
  intros Hi Hshort. rewrite grayscale_read by assumption.
  destruct (4 * i <? Z.of_nat (List.length rgba)); [|reflexivity].
  rewrite gray_at_missing; [reflexivity|].
  right. right. apply read_beyond. lia.
Qed.

Lemma grayscale_truncated_buffer_witness :
  read (grayscale [255; 255; 255; 255; 255; 255] 2 1) 1 = Some 0.
Proof.
  apply (grayscale_truncated_buffer [255; 255; 255; 255; 255; 255] 2 1 1).
  - lia.
  - simpl. lia.
Defined.

Lemma read_app_l (arr more : list Z) (idx : Z) :
  idx < Z.of_nat (List.length arr) ->
  read (arr ++ more)%list idx = read arr idx.
Proof.
  intros Hidx. unfold read. destruct (idx <? 0) eqn:Hneg; [reflexivity|].
  apply Z.ltb_ge in Hneg. apply nth_error_app1. lia.
Qed.

Lemma grayscale_ext (rgba rgba' : list Z) (width height : Z) :
  (forall i, 0 <= i < width * height ->
     read (grayscale rgba' width height) i
     = read (grayscale rgba width height) i) ->
  grayscale rgba' width height = grayscale rgba width height.
Proof.
  intros Hsame. apply nth_error_ext. intros n.
  destruct (Nat.ltb_spec n (Z.to_nat (width * height))) as [Hin | Hout].
  - specialize (Hsame (Z.of_nat n) ltac:(lia)). unfold read in Hsame.
    destruct (Z.of_nat n <? 0) eqn:Hneg; [apply Z.ltb_lt in Hneg; lia|].
    now rewrite Nat2Z.id in Hsame.
  - transitivity (@None Z); [|symmetry];
      apply nth_error_None; rewrite grayscale_length; lia.
Qed.

(** X5.  Samples after the [width * height] pixels of the frame are never
    used: a buffer with more data gives the same luminance buffer. *)
Theorem grayscale_ignores_excess (rgba more : list Z) (width height : Z) :
  Z.of_nat (List.length rgba) = width * height * 4 ->
  grayscale (rgba ++ more)%list width height = grayscale rgba width height.
Proof.
  intros Hlen. apply grayscale_ext. intros i Hi.
  rewrite !grayscale_read by assumption.
  rewrite length_app, Nat2Z.inj_add.
  replace (4 * i <? Z.of_nat (List.length rgba) + Z.of_nat (List.length more))
    with true by (symmetry; apply Z.ltb_lt; lia).
  replace (4 * i <? Z.of_nat (List.length rgba))
    with true by (symmetry; apply Z.ltb_lt; lia).
  unfold gray_at. rewrite !read_app_l by lia. reflexivity.
Qed.

Lemma grayscale_ignores_excess_witness :
  grayscale ([10; 20; 30; 255] ++ [200; 200; 200; 255; 7])%list 1 1
  = grayscale [10; 20; 30; 255] 1 1.
Proof.
  apply (grayscale_ignores_excess [10; 20; 30; 255] [200; 200; 200; 255; 7] 1 1).
  reflexivity.
Defined.

(** The formula was evaluated on the 256 gray pixels. *)
Lemma gray_pixels_checked :
  forallb
    (fun c =>
       match Math_round (luma (to_number (Some c)) (to_number (Some c))
                              (to_number (Some c))) with
       | RInt z => z =? c
       | _ => false
       end)
    all_bytes
  = true.
Proof. vm_compute. reflexivity. Qed.

Lemma gray_at_gray_pixel (data : list Z) (i c : Z) :
  is_byte c ->
  read data i = Some c -> read data (i + 1) = Some c ->
  read data (i + 2) = Some c ->
  ToUint8Clamp (gray_at data i) = c.
Proof.
  intros Hc Hr Hg Hb. unfold gray_at. rewrite Hr, Hg, Hb.
  pose proof gray_pixels_checked as Hall. rewrite forallb_forall in Hall.
  specialize (Hall c (all_bytes_In c Hc)).
  destruct (Math_round _) as [| |z]; try discriminate.
  apply Z.eqb_eq in Hall. subst z.
  unfold ToUint8Clamp, is_byte in *. lia.
Qed.

Lemma grayscale_read_gray (rgba : list Z) (width height i c : Z) :
  0 <= i < width * height ->
  is_byte c ->
  read rgba (4 * i) = Some c ->
  read rgba (4 * i + 1) = Some c ->
  read rgba (4 * i + 2) = Some c ->
  read (grayscale rgba width height) i = Some c.
Proof.
  intros Hi Hc Hr Hg Hb. rewrite grayscale_read by assumption.
  destruct (Z.ltb_spec (4 * i) (Z.of_nat (List.length rgba))) as [Hin | Hout].
  - now rewrite (gray_at_gray_pixel rgba (4 * i) c).
  - rewrite read_beyond in Hr by lia. discriminate.
Qed.

(** X6.  A gray pixel keeps its value: when the red, green and blue samples
    of pixel [i] are the same byte [c], the luminance stored for it is [c]
    (the three weights add up to 1 closely enough in double precision for
    the rounding to give back [c], for each of the 256 values). *)
Theorem grayscale_gray_pixel (rgba : list Z) (width height i c : Z) :
  0 <= i < width * height ->
  is_byte c ->
  read rgba (4 * i) = Some c ->
  read rgba (4 * i + 1) = Some c ->
  read rgba (4 * i + 2) = Some c ->
  read (grayscale rgba width height) i = Some c.
Proof. apply grayscale_read_gray. Qed.

Lemma grayscale_gray_pixel_witness :
  read (grayscale [0; 0; 0; 255; 77; 77; 77; 0] 2 1) 1 = Some 77.
Proof.
  apply (grayscale_gray_pixel [0; 0; 0; 255; 77; 77; 77; 0] 2 1 1 77).
  - lia.
  - unfold is_byte. lia.
  - reflexivity.
  - reflexivity.
  - reflexivity.
Defined.

Lemma grayscale_Forall (P : Z -> Prop) (rgba : list Z) (width height : Z) :
  (forall i v, 0 <= i < width * height ->
     read (grayscale rgba width height) i = Some v -> P v) ->
  Forall P (grayscale rgba width height).
Proof.
  intros Hall. apply Forall_forall. intros v Hin.
  apply In_nth_error in Hin. destruct Hin as [n Hn].
  assert (n < Z.to_nat (width * height))%nat as Hlt.
  { rewrite <- (grayscale_length rgba). apply nth_error_Some. congruence. }
  apply (Hall (Z.of_nat n)); [lia|].
  unfold read. destruct (Z.of_nat n <? 0) eqn:Hneg;
    [apply Z.ltb_lt in Hneg; lia|].
  now rewrite Nat2Z.id.
Qed.

(** X7.  A frame of gray pixels (red, green and blue equal in each pixel)
    that are all at least 128, or all below 128, is never detected: [jsQR]
    returns [null] on it.  A white frame and a black frame are instances. *)
Theorem jsQR_gray_frame_not_detected (rgba : list Z) (width height now : Z) :
  0 <= width * height ->
  (forall i, 0 <= i < width * height ->
     exists c, is_byte c /\ 128 <= c
       /\ read rgba (4 * i) = Some c /\ read rgba (4 * i + 1) = Some c
       /\ read rgba (4 * i + 2) = Some c)
  \/ (forall i, 0 <= i < width * height ->
        exists c, is_byte c /\ c < 128
          /\ read rgba (4 * i) = Some c /\ read rgba (4 * i + 1) = Some c
          /\ read rgba (4 * i + 2) = Some c) ->
  jsQR rgba width height now = Returned None.
Proof.
  intros Harea Hgray. unfold jsQR.
  destruct (width * height <? 0) eqn:Hneg; [apply Z.ltb_lt in Hneg; lia|].
  f_equal. apply detect_no_candidates, findPatterns_one_sided.
  destruct Hgray as [Hlight | Hdark]; [left | right];
    apply grayscale_Forall; intros i v Hi Hread.
  - destruct (Hlight i Hi) as (c & Hc & Hside & Hr & Hg & Hb).
    rewrite (grayscale_read_gray rgba width height i c Hi Hc Hr Hg Hb)
      in Hread.
    injection Hread as <-. exact Hside.
  - destruct (Hdark i Hi) as (c & Hc & Hside & Hr & Hg & Hb).
    rewrite (grayscale_read_gray rgba width height i c Hi Hc Hr Hg Hb)
      in Hread.
    injection Hread as <-. exact Hside.
Qed.

Lemma read_repeat (v : Z) (n : nat) (idx : Z) :
  0 <= idx < Z.of_nat n -> read (repeat v n) idx = Some v.
Proof.
  intros Hidx. unfold read.
  destruct (idx <? 0) eqn:Hneg; [apply Z.ltb_lt in Hneg; lia|].
  apply nth_error_repeat. lia.
Qed.

Lemma jsQR_gray_frame_not_detected_witness :
  jsQR (repeat 255 (Z.to_nat 16384)) 64 64 1793577600123 = Returned None.
Proof.
  apply (jsQR_gray_frame_not_detected
           (repeat 255 (Z.to_nat 16384)) 64 64 1793577600123).
  - lia.
  - left. intros i Hi. exists 255.
    split; [unfold is_byte; lia|]. split; [lia|].
    repeat split; apply read_repeat; lia.
Defined.

(** ** The bit string and the candidate string *)

Lemma walk_values_length (center extractSize : Z) :
  List.length
    (for_values (2 * center - extractSize) (2 * center + extractSize) 4)
  = Z.to_nat ((2 * extractSize + 3) / 4).
Proof.
  rewrite for_values_length by lia. do 2 f_equal. lia.
Qed.

Lemma extractBits_length (gray : list Z) (width height threshold : Z) :
  String.length (extractBits gray width height threshold)
  = (walkSide width height * walkSide width height)%nat.
Proof.
  destruct (extractBits_shape gray width height threshold) as [_ ->].
  unfold walkSide. now rewrite walk_values_length.
Qed.

Lemma walkSide_bound (width height : Z) :
  (walkSide width height <= 50)%nat
  /\ (forall k, 0 <= k -> Z.min width height < 20 * k + 10 ->
        Z.of_nat (walkSide width height) <= k).
Proof.
  unfold walkSide.
  set (extractSize := Z.min 100 (Z.min width height / 10)).
  split.
  - assert ((2 * extractSize + 3) / 4 <= 50)
      by (apply Z.lt_succ_r, Z.div_lt_upper_bound; unfold extractSize; lia).
    lia.
  - intros k Hk Hside.
    assert (extractSize <= 2 * k) as Hsize.
    { assert (Z.min width height / 10 <= 2 * k)
        by (apply Z.lt_succ_r, Z.div_lt_upper_bound; lia).
      unfold extractSize. lia. }
    assert ((2 * extractSize + 3) / 4 <= k)
      by (apply Z.lt_succ_r, Z.div_lt_upper_bound; lia).
    lia.
Qed.

(** X8.  The bit string of the walk consists of the characters "0" and "1"
    only and has [n * n] of them, where [n] is [extractSize / 2] rounded up
    and [extractSize] is [min(100, floor(min(width, height) / 10))]: at
    most 2500 bits, and none at all when a side of the frame is shorter
    than 10 pixels. *)
Theorem extractBits_size (gray : list Z) (width height threshold : Z) :
  let bits := extractBits gray width height threshold in
  let extractSize := Z.min 100 (Z.min width height / 10) in
  let n := Z.to_nat ((extractSize + 1) / 2) in
  bits_only bits = true
  /\ String.length bits = (n * n)%nat
  /\ (String.length bits <= 2500)%nat
  /\ (Z.min width height < 10 -> bits = "").
Proof.
  intros bits extractSize n.
  assert (n = walkSide width height) as Hn.
  { unfold n, walkSide. fold extractSize. f_equal.
    pose proof (Z.div_mod (extractSize + 1) 2 ltac:(lia)).
    pose proof (Z.mod_pos_bound (extractSize + 1) 2 ltac:(lia)).
    pose proof (Z.div_mod (2 * extractSize + 3) 4 ltac:(lia)).
    pose proof (Z.mod_pos_bound (2 * extractSize + 3) 4 ltac:(lia)).
    lia. }
  pose proof (walkSide_bound width height) as [Hmax Hside].
  pose proof (extractBits_length gray width height threshold) as Hlen.
  fold bits in Hlen. rewrite <- Hn in *.
  split; [apply extractBits_shape|].
  split; [exact Hlen|].
  split; [rewrite Hlen; nia|].
  intros Hsmall. specialize (Hside 0 ltac:(lia) ltac:(lia)).
  assert (n = 0%nat) as Hzero by lia.
  rewrite Hzero in Hlen. simpl in Hlen.
  destruct bits; [reflexivity | discriminate].
Qed.

Lemma full_chunks_from_count (fuel : nat) :
  forall s,
    (8 * List.length (full_chunks_from fuel s) <= String.length s)%nat.
Proof.
  induction fuel as [|fuel IH]; intros s; cbn [full_chunks_from];
    [simpl; lia|].
  destruct (Nat.leb_spec 8 (String.length s)) as [Hge | Hlt]; [|simpl; lia].
  cbn [List.length]. specialize (IH (drop 8 s)).
  rewrite length_drop in IH. lia.
Qed.

Lemma chunk_char_length (chunk : string) :
  (String.length (chunk_char chunk) <= 1)%nat.
Proof.
  unfold chunk_char.
  destruct ((32 <=? binary_value chunk) && (binary_value chunk <=? 126));
    simpl; lia.
Qed.

Lemma concat_chunk_char_length (chunks : list string) :
  (String.length (String.concat "" (map chunk_char chunks))
   <= List.length chunks)%nat.
Proof.
  induction chunks as [|chunk chunks IH]; [simpl; lia|].
  cbn [map List.length]. rewrite concat_empty_cons, length_append.
  pose proof (chunk_char_length chunk). lia.
Qed.

(** The candidate string has at most one character for each full chunk of
    the bit string. *)
Lemma candidateString_length (gray : list Z) (width height threshold : Z) :
  (8 * String.length (candidateString gray width height threshold)
   <= walkSide width height * walkSide width height)%nat.
Proof.
  rewrite candidate_decode_spec. unfold decode_spec.
  pose proof (concat_chunk_char_length
                (firstn 20
                   (full_chunks (extractBits gray width height threshold)))).
  pose proof (length_firstn 20
                (full_chunks (extractBits gray width height threshold))).
  pose proof (full_chunks_from_count
                (String.length (extractBits gray width height threshold))
                (extractBits gray width height threshold)) as Hcount.
  fold (full_chunks (extractBits gray width height threshold)) in Hcount.
  rewrite extractBits_length in Hcount.
  lia.
Qed.

Lemma detect_unreadable (gray : list Z) (width height threshold now : Z) :
  (String.length (candidateString gray width height threshold) <= 3)%nat ->
  detect gray width height threshold now
  = if (3 <=? List.length (findPatterns gray width height threshold))%nat
    then Some (mkResult
                 (fallbackId (findPatterns gray width height threshold) now))
    else None.
Proof.
  intros Hshort. unfold detect.
  replace (3 <? String.length (candidateString gray width height threshold))%nat
    with false by (symmetry; apply Nat.ltb_ge; assumption).
  reflexivity.
Qed.

(** X9.  In a frame whose shorter side is below 110 pixels the walk yields
    fewer than 32 bits, so the candidate string has at most 3 characters
    and can never pass the length test: every result is the synthesised
    identifier. *)
Theorem short_side_never_readable
    (gray : list Z) (width height threshold : Z) :
  Z.min width height < 110 ->
  (String.length (candidateString gray width height threshold) <= 3)%nat
  /\ (forall now,
        detect gray width height threshold now
        = if (3 <=? List.length (findPatterns gray width height threshold))%nat
          then Some (mkResult
                       (fallbackId
                          (findPatterns gray width height threshold) now))
          else None).
Proof.
  intros Hside.
  assert (String.length (candidateString gray width height threshold) <= 3)%nat
    as Hshort.
  { pose proof (candidateString_length gray width height threshold).
    pose proof (walkSide_bound width height) as [_ Hn].
    specialize (Hn 5 ltac:(lia) ltac:(lia)).
    nia. }
  split; [exact Hshort|].
  intros now. now apply detect_unreadable.
Qed.

Lemma short_side_never_readable_witness :
  (String.length (candidateString small_frame 48 32 128) <= 3)%nat
  /\ (forall now,
        detect small_frame 48 32 128 now
        = if (3 <=? List.length (findPatterns small_frame 48 32 128))%nat
          then Some (mkResult
                       (fallbackId (findPatterns small_frame 48 32 128) now))
          else None).
Proof.
  apply (short_side_never_readable small_frame 48 32 128). lia.
Defined.

(** ** A walk between the pixels *)

Section HalfPixels.
Variables (gray : list Z) (width height threshold : Z).

Let centerX := width / 2.
Let centerY := height / 2.
Let extractSize := Z.min 100 (Z.min width height / 10).
Let xs := for_values (2 * centerX - extractSize) (2 * centerX + extractSize) 4.
Let ys := for_values (2 * centerY - extractSize) (2 * centerY + extractSize) 4.

Hypothesis Hodd : Z.odd extractSize = true.
Hypothesis Heven : Z.even width = true.

(** With an odd [extractSize] the walk starts half a pixel off, and every
    coordinate it visits is a half-integer. *)
Lemma walk_value_odd (center v : Z) :
  In v (for_values (2 * center - extractSize) (2 * center + extractSize) 4) ->
  Z.even v = false.
Proof.
  intros Hin. apply for_values_In in Hin; [|lia].
  destruct Hin as [_ Hmod].
  apply Z.mod_divide in Hmod; [|lia]. destruct Hmod as [q Hq].
  replace v with (2 * (center + 2 * q) + - extractSize) by lia.
  rewrite Z.even_add, Z.even_mul, Z.even_opp. cbn [Z.even orb].
  rewrite <- Z.negb_odd, Hodd. reflexivity.
Qed.

(** In a frame of even width the index is then not an integer and the read
    gives [undefined]: the walk appends "0". *)
Lemma walk_step_half_pixel (y2 x2 : Z) (acc : string) :
  In x2 xs -> In y2 ys ->
  walk_step gray width height threshold y2 acc x2 = acc ++ "0".
Proof.
  intros Hx Hy. unfold walk_step.
  pose proof (walk_in_bounds width height x2 y2 Hx Hy) as Hin.
  cbv zeta in Hin. rewrite Hin.
  unfold read_half.
  rewrite Z.even_add, Z.even_mul, Heven, orb_true_r.
  rewrite (walk_value_odd centerX x2 Hx). reflexivity.
Qed.

Lemma walk_row_zeros (y2 : Z) (cols : list Z) :
  (forall x2, In x2 cols -> In x2 xs) -> In y2 ys ->
  forall acc,
    zeros_only acc = true ->
    zeros_only (fold_left (walk_step gray width height threshold y2) cols acc)
    = true.
Proof.
  intros Hcols Hy. induction cols as [|x2 cols IH]; intros acc Hacc;
    [exact Hacc|].
  cbn [fold_left].
  rewrite walk_step_half_pixel by (try apply Hcols; simpl; auto).
  apply IH; [intros; apply Hcols; now right|].
  clear - Hacc. induction acc as [|c acc IHacc]; [reflexivity|].
  simpl in *. apply andb_true_iff in Hacc. destruct Hacc as [-> Hacc].
  now apply IHacc.
Qed.

Lemma walk_rows_zeros (rows : list Z) :
  (forall y2, In y2 rows -> In y2 ys) ->
  forall acc,
    zeros_only acc = true ->
    zeros_only
      (fold_left
         (fun dataString y2 =>
            fold_left (walk_step gray width height threshold y2) xs
                      dataString)
         rows acc)
    = true.
Proof.
  intros Hrows. induction rows as [|y2 rows IH]; intros acc Hacc;
    [exact Hacc|].
  cbn [fold_left]. apply IH; [intros; apply Hrows; now right|].
  apply walk_row_zeros; [auto | apply Hrows; now left | exact Hacc].
Qed.

Lemma extractBits_zeros :
  zeros_only (extractBits gray width height threshold) = true.
Proof.
  unfold extractBits. fold centerX centerY extractSize. fold xs ys.
  apply walk_rows_zeros; [auto | reflexivity].
Qed.
End HalfPixels.

Lemma zeros_only_take (n : nat) :
  forall s, zeros_only s = true -> zeros_only (take n s) = true.
Proof.
  induction n as [|n IH]; intros [|c s] Hs; simpl in *; try reflexivity.
  apply andb_true_iff in Hs. destruct Hs as [-> Hs]. simpl. now apply IH.
Qed.

Lemma zeros_only_drop (n : nat) :
  forall s, zeros_only s = true -> zeros_only (drop n s) = true.
Proof.
  induction n as [|n IH]; intros [|c s] Hs; simpl in *; try assumption.
  apply andb_true_iff in Hs. destruct Hs as [_ Hs]. now apply IH.
Qed.

Lemma binary_value_zeros (s : string) :
  zeros_only s = true -> binary_value s = 0.
Proof.
  induction s as [|c s IH]; intros Hs; [reflexivity|].
  simpl in *. apply andb_true_iff in Hs. destruct Hs as [Hc Hs].
  apply Ascii.eqb_eq in Hc. subst c. simpl. now apply IH.
Qed.

Lemma decode_spec_zeros_from (fuel : nat) :
  forall s k,
    zeros_only s = true ->
    String.concat "" (map chunk_char (firstn k (full_chunks_from fuel s)))
    = "".
Proof.
  induction fuel as [|fuel IH]; intros s k Hs; cbn [full_chunks_from].
  - now rewrite firstn_nil.
  - destruct (8 <=? String.length s)%nat; [|now rewrite firstn_nil].
    destruct k as [|k]; [reflexivity|].
    rewrite firstn_cons. cbn [map]. rewrite concat_empty_cons.
    rewrite IH by now apply zeros_only_drop.
    unfold chunk_char.
    rewrite binary_value_zeros by now apply zeros_only_take.
    reflexivity.
Qed.

(** X10.  When [extractSize] is odd the walk runs between the pixels, and in
    a frame of even width none of its indices is an integer: every read is
    [undefined], the bit string is all "0", the candidate string is empty,
    and whatever the image shows the result is the synthesised identifier
    (or nothing).  A 720 by 576 frame is such a frame. *)
Theorem half_pixel_walk_reads_nothing
    (gray : list Z) (width height threshold : Z) :
  Z.odd (Z.min 100 (Z.min width height / 10)) = true ->
  Z.even width = true ->
  zeros_only (extractBits gray width height threshold) = true
  /\ candidateString gray width height threshold = ""
  /\ (forall now,
        detect gray width height threshold now
        = if (3 <=? List.length (findPatterns gray width height threshold))%nat
          then Some (mkResult
                       (fallbackId
                          (findPatterns gray width height threshold) now))
          else None).
Proof.
  intros Hodd Heven.
  pose proof (extractBits_zeros gray width height threshold Hodd Heven)
    as Hzeros.
  assert (candidateString gray width height threshold = "") as Hcand.
  { rewrite candidate_decode_spec. unfold decode_spec, full_chunks.
    now apply decode_spec_zeros_from. }
  split; [exact Hzeros|]. split; [exact Hcand|].
  intros now. apply detect_unreadable. rewrite Hcand. simpl. lia.
Qed.

Lemma half_pixel_walk_reads_nothing_witness :
  zeros_only (extractBits (frame 720 576 finder_cell) 720 576 128) = true
  /\ candidateString (frame 720 576 finder_cell) 720 576 128 = ""
  /\ (forall now,
        detect (frame 720 576 finder_cell) 720 576 128 now
        = if (3 <=? List.length
                      (findPatterns (frame 720 576 finder_cell) 720 576 128))%nat
          then Some (mkResult
                       (fallbackId
                          (findPatterns (frame 720 576 finder_cell)
                                        720 576 128) now))
          else None).
Proof.
  apply (half_pixel_walk_reads_nothing (frame 720 576 finder_cell) 720 576 128).
  - reflexivity.
  - reflexivity.
Defined.

(** ** The clock in the synthesised identifier *)

Lemma digit_period (n k p q : Z) :
  0 < p -> ((n + k * (q * 10 * p)) / p) mod 10 = (n / p) mod 10.
Proof.
  intros Hp.
  replace (n + k * (q * 10 * p)) with (n + (k * q * 10) * p) by ring.
  rewrite Z.div_add by lia.
  replace (n / p + k * q * 10) with (n / p + (k * q) * 10) by ring.
  apply Z.mod_add. lia.
Qed.

Lemma decimal_digit_period (n k j : Z) :
  0 <= j <= 5 -> decimal_digit (n + k * 1000000) j = decimal_digit n j.
Proof.
  intros Hj. unfold decimal_digit. f_equal.
  assert (j = 0 \/ j = 1 \/ j = 2 \/ j = 3 \/ j = 4 \/ j = 5) as Hcases by lia.
  destruct Hcases as [-> | [-> | [-> | [-> | [-> | ->]]]]].
  - apply (digit_period n k (10 ^ 0) 100000). reflexivity.
  - apply (digit_period n k (10 ^ 1) 10000). reflexivity.
  - apply (digit_period n k (10 ^ 2) 1000). reflexivity.
  - apply (digit_period n k (10 ^ 3) 100). reflexivity.
  - apply (digit_period n k (10 ^ 4) 10). reflexivity.
  - apply (digit_period n k (10 ^ 5) 1). reflexivity.
Qed.

Lemma last_six_digits_period (n k : Z) :
  last_six_digits (n + k * 1000000) = last_six_digits n.
Proof.
  unfold last_six_digits. now rewrite !decimal_digit_period by lia.
Qed.

(** X11.  The identifier keeps only the last six digits of the clock, so it
    is not unique in time: for the same frame, two calls a whole number of
    times 1000 seconds apart return the same result. *)
Theorem detect_repeats_every_1000_seconds
    (gray : list Z) (width height threshold now k : Z) :
  100000 <= now -> 0 <= k ->
  detect gray width height threshold (now + k * 1000000)
  = detect gray width height threshold now.
Proof.
  intros Hnow Hk. unfold detect, fallbackId.
  rewrite !slice_last_six by nia.
  now rewrite last_six_digits_period.
Qed.

Lemma detect_repeats_every_1000_seconds_witness :
  detect small_frame 48 32 128 (1793577600123 + 3 * 1000000)
  = detect small_frame 48 32 128 1793577600123.
Proof.
  apply (detect_repeats_every_1000_seconds small_frame 48 32 128
           1793577600123 3); lia.
Defined.

(** ** An exact finder silhouette *)

Lemma filter_all {A : Type} (f : A -> bool) (l : list A) :
  (forall a, In a l -> f a = true) -> filter f l = l.
Proof.
  intros Hf. induction l as [|a l IH]; [reflexivity|].
  simpl. rewrite Hf by now left. f_equal. apply IH.
  intros; apply Hf; now right.
Qed.

(** X12.  A window in bounds whose border ring and inner core are entirely
    dark and whose middle ring is entirely light is classified as a finder
    pattern, with the full counts of 33 dark and 16 light cells. *)
Theorem exact_silhouette_accepted (gray : list Z) (w h thresh x y : Z) :
  Z.of_nat (List.length gray) = w * h ->
  0 <= x <= w - 8 ->
  0 <= y <= h - 8 ->
  (forall cell, In cell (border_ring ++ inner_core)%list ->
     luminance gray w x y cell < thresh) ->
  (forall cell, In cell middle_ring -> thresh <= luminance gray w x y cell) ->
  isFinderPattern gray x y w h thresh = true
  /\ dark_count gray w thresh x y = 33%nat
  /\ light_count gray w thresh x y = 16%nat.
Proof.
  intros Hlen Hx Hy Hdark Hlight.
  assert (dark_count gray w thresh x y = 33%nat) as Hd.
  { unfold dark_count. rewrite filter_all; [reflexivity|].
    intros cell Hin. apply Z.ltb_lt. now apply Hdark. }
  assert (light_count gray w thresh x y = 16%nat) as Hl.
  { unfold light_count. rewrite filter_all; [reflexivity|].
    intros cell Hin. apply Z.leb_le. now apply Hlight. }
  split; [|split; assumption].
  apply (classifier_rule gray w h thresh x y Hlen Hx Hy).
  unfold finder_rule. rewrite Hd, Hl. lia.
Qed.

Lemma exact_silhouette_accepted_witness :
  isFinderPattern (frame 8 8 finder_cell) 0 0 8 8 128 = true
  /\ dark_count (frame 8 8 finder_cell) 8 128 0 0 = 33%nat
  /\ light_count (frame 8 8 finder_cell) 8 128 0 0 = 16%nat.
Proof.
  apply (exact_silhouette_accepted (frame 8 8 finder_cell) 8 8 128 0 0).
  - reflexivity.
  - lia.
  - lia.
  - intros cell Hin. vm_compute in Hin.
    repeat (destruct Hin as [<- | Hin]; [vm_compute; reflexivity|]).
    contradiction.
  - intros cell Hin. vm_compute in Hin.
    repeat (destruct Hin as [<- | Hin];
            [apply Z.leb_le; vm_compute; reflexivity|]).
    contradiction.
Defined.

(** ** The margin that the scan never looks at *)

Lemma classify_local (gray gray' : list Z) (x y w thresh : Z) :
  (forall dy dx, 0 <= dy <= 6 -> 0 <= dx <= 6 ->
     read gray ((y + dy) * w + (x + dx))
     = read gray' ((y + dy) * w + (x + dx))) ->
  classify gray x y w thresh = classify gray' x y w thresh.
Proof.
  intros Hsame. rewrite !classify_counts.
  rewrite (filter_ext_in (dark_hit gray x y w thresh)
             (dark_hit gray' x y w thresh)).
  - rewrite (filter_ext_in (light_hit gray x y w thresh)
               (light_hit gray' x y w thresh)); [reflexivity|].
    intros [dy dx] Hin. apply window_cell_range in Hin.
    unfold light_hit. now rewrite Hsame.
  - intros [dy dx] Hin. apply window_cell_range in Hin.
    unfold dark_hit. now rewrite Hsame.
Qed.

Lemma flat_map_ext_in {A B : Type} (f g : A -> list B) (l : list A) :
  (forall a, In a l -> f a = g a) -> flat_map f l = flat_map g l.
Proof.
  intros Hfg. induction l as [|a l IH]; [reflexivity|].
  simpl. rewrite Hfg by now left. f_equal.
  apply IH. intros; apply Hfg; now right.
Qed.

(** X13.  The scan stops 21 pixels before the right and bottom edges, so
    the windows it examines end 16 pixels before them: the pixels of the
    last 15 columns and of the last 15 rows have no influence on the
    candidates, and a finder pattern there is never found. *)
Theorem findPatterns_ignores_margin
    (gray gray' : list Z) (width height threshold : Z) :
  (forall px py, 0 <= px <= width - 16 -> 0 <= py <= height - 16 ->
     read gray (py * width + px) = read gray' (py * width + px)) ->
  findPatterns gray width height threshold
  = findPatterns gray' width height threshold.
Proof.
  intros Hsame. unfold findPatterns.
  apply flat_map_ext_in. intros y Hy.
  apply flat_map_ext_in. intros x Hx.
  apply grid_values in Hx, Hy. unfold on_grid in Hx, Hy.
  unfold isFinderPattern.
  rewrite (classify_local gray gray' x y width threshold); [reflexivity|].
  intros dy dx Hdy Hdx. apply Hsame; lia.
Qed.

Lemma findPatterns_ignores_margin_witness :
  findPatterns (repeat 255 1535 ++ [255])%list 48 32 128
  = findPatterns (repeat 255 1535 ++ [0])%list 48 32 128.
Proof.
  apply (findPatterns_ignores_margin
           (repeat 255 1535 ++ [255])%list (repeat 255 1535 ++ [0])%list
           48 32 128).
  intros px py Hpx Hpy.
  rewrite !read_app_l by (rewrite repeat_length; lia). reflexivity.
Defined.

(** ** What the result depends on *)

Lemma read_defined (arr : list Z) (idx v : Z) :
  read arr idx = Some v -> 0 <= idx < Z.of_nat (List.length arr).
Proof.
  unfold read. destruct (idx <? 0) eqn:Hneg; [discriminate|].
  apply Z.ltb_ge in Hneg. intros Hread.
  assert (nth_error arr (Z.to_nat idx) <> None) as Hsome by congruence.
  apply nth_error_Some in Hsome. lia.
Qed.

Lemma read_covers (arr arr' : list Z) (idx : Z) :
  0 <= idx -> read arr' idx = read arr idx ->
  (idx <? Z.of_nat (List.length arr')) = (idx <? Z.of_nat (List.length arr)).
Proof.
  intros Hidx Hsame.
  destruct (Z.ltb_spec idx (Z.of_nat (List.length arr))) as [Hin | Hout].
  - rewrite (read_nth arr idx) in Hsame by lia.
    apply read_defined in Hsame. apply Z.ltb_lt. lia.
  - rewrite (read_beyond arr idx) in Hsame by lia.
    apply Z.ltb_ge.
    destruct (Z.ltb_spec idx (Z.of_nat (List.length arr'))) as [Hin' | Hout'];
      [|assumption].
    rewrite (read_nth arr' idx) in Hsame by lia. discriminate.
Qed.

(** X14.  The outcome of [jsQR] depends only on the red, green and blue
    samples of the first [width * height] pixels: two buffers that agree on
    them (alpha samples and anything after the frame may differ, and so may
    the lengths) give the same outcome. *)
Theorem jsQR_depends_on_rgb_of_frame
    (rgba rgba' : list Z) (width height now : Z) :
  (forall j, 0 <= j < width * height * 4 -> j mod 4 <> 3 ->
     read rgba' j = read rgba j) ->
  jsQR rgba' width height now = jsQR rgba width height now.
Proof.
  intros Hsame. unfold jsQR.
  destruct (width * height <? 0); [reflexivity|].
  assert (grayscale rgba' width height = grayscale rgba width height) as ->;
    [|reflexivity].
  apply grayscale_ext. intros i Hi.
  rewrite !grayscale_read by assumption.
  assert ((4 * i) mod 4 = 0) as H0
    by (rewrite Z.mul_comm; apply Z.mod_mul; lia).
  assert ((4 * i + 1) mod 4 = 1) as H1
    by (rewrite <- Z.add_mod_idemp_l, H0 by lia; reflexivity).
  assert ((4 * i + 2) mod 4 = 2) as H2
    by (rewrite <- Z.add_mod_idemp_l, H0 by lia; reflexivity).
  pose proof (Hsame (4 * i) ltac:(lia) ltac:(lia)) as Hr.
  pose proof (Hsame (4 * i + 1) ltac:(lia) ltac:(lia)) as Hg.
  pose proof (Hsame (4 * i + 2) ltac:(lia) ltac:(lia)) as Hb.
  rewrite (read_covers rgba rgba' (4 * i)) by (lia || assumption).
  unfold gray_at. rewrite Hr, Hg, Hb. reflexivity.
Qed.

Lemma jsQR_depends_on_rgb_of_frame_witness :
  jsQR [10; 20; 30; 0; 99] 1 1 1793577600123
  = jsQR [10; 20; 30; 255] 1 1 1793577600123.
Proof.
  apply (jsQR_depends_on_rgb_of_frame
           [10; 20; 30; 255] [10; 20; 30; 0; 99] 1 1 1793577600123).
  intros j Hj Hmod.
  assert (j = 0 \/ j = 1 \/ j = 2 \/ j = 3) as Hcases by lia.
  destruct Hcases as [-> | [-> | [-> | ->]]];
    [reflexivity | reflexivity | reflexivity | now exfalso; apply Hmod].
Defined.

(** ** A walk on the pixels *)

Lemma fold_append {A : Type} (f : A -> string) (l : list A) :
  forall acc,
    fold_left (fun s a => s ++ f a) l acc
    = acc ++ String.concat "" (map f l).
Proof.
  induction l as [|a l IH]; intros acc.
  - simpl. now rewrite append_empty_r.
  - cbn [fold_left map]. now rewrite IH, concat_empty_cons, append_assoc.
Qed.

Lemma fold_left_over_map {A B C : Type} (f : A -> C -> A) (g : B -> C)
    (l : list B) :
  forall a, fold_left f (map g l) a = fold_left (fun a b => f a (g b)) l a.
Proof. induction l as [|b l IH]; intros a; [reflexivity | apply IH]. Qed.

Lemma walk_values_doubled (center half : Z) :
  for_values (2 * center - 2 * half) (2 * center + 2 * half) 4
  = map (Z.mul 2) (for_values (center - half) (center + half) 2).
Proof.
  rewrite !for_values_seq by lia. rewrite map_map.
  replace ((2 * center + 2 * half - (2 * center - 2 * half) + 4 - 1) / 4)
    with ((center + half - (center - half) + 2 - 1) / 2).
  - apply map_ext. intros k. lia.
  - replace (center + half - (center - half) + 2 - 1) with (1 + half * 2)
      by lia.
    replace (2 * center + 2 * half - (2 * center - 2 * half) + 4 - 1)
      with (3 + half * 4) by lia.
    rewrite !Z.div_add by lia. reflexivity.
Qed.

(** X15.  When [extractSize] is even the walk runs on the pixels: the bit
    string lists, row by row, the pixels [(x, y)] with [y] and [x] going
    from the centre minus [extractSize / 2] in steps of 2 while below the
    centre plus [extractSize / 2], with "1" for a sample below the
    threshold and "0" otherwise. *)
Theorem walk_on_pixels (gray : list Z) (width height threshold : Z) :
  Z.even (Z.min 100 (Z.min width height / 10)) = true ->
  let half := Z.min 100 (Z.min width height / 10) / 2 in
  extractBits gray width height threshold
  = String.concat ""
      (map
         (fun y =>
            String.concat ""
              (map
                 (fun x =>
                    if js_lt (read gray (y * width + x)) threshold
                    then "1" else "0")
                 (for_values (width / 2 - half) (width / 2 + half) 2)))
         (for_values (height / 2 - half) (height / 2 + half) 2)).
Proof.
  intros Heven half.
  assert (Z.min 100 (Z.min width height / 10) = 2 * half) as Hsize.
  { unfold half. apply Z.even_spec in Heven. destruct Heven as [q Hq].
    rewrite Hq. rewrite (Z.mul_comm 2 q), Z.div_mul by lia. lia. }
  pose proof (walk_in_bounds width height) as Hbounds. cbv zeta in Hbounds.
  unfold extractBits. rewrite Hsize in *.
  rewrite !walk_values_doubled in *.
  set (xs := for_values (width / 2 - half) (width / 2 + half) 2) in *.
  set (ys := for_values (height / 2 - half) (height / 2 + half) 2) in *.
  assert (forall y x acc, In x xs -> In y ys ->
            walk_step gray width height threshold (2 * y) acc (2 * x)
            = acc ++ (if js_lt (read gray (y * width + x)) threshold
                      then "1" else "0")) as Hstep.
  { intros y x acc Hx Hy. unfold walk_step.
    rewrite Hbounds by (apply in_map; assumption).
    unfold read_half.
    replace (2 * y * width + 2 * x) with (2 * (y * width + x)) by ring.
    rewrite Z.even_mul. cbn [Z.even orb].
    rewrite (Z.mul_comm 2), Z.div_mul by lia. reflexivity. }
  assert (forall y acc, In y ys ->
            fold_left (walk_step gray width height threshold (2 * y))
                      (map (Z.mul 2) xs) acc
            = acc ++ String.concat ""
                       (map (fun x =>
                               if js_lt (read gray (y * width + x)) threshold
                               then "1" else "0") xs)) as Hrow.
  { intros y acc Hy. rewrite <- fold_append.
    rewrite fold_left_over_map.
    apply fold_left_ext_in. intros s x Hx. now apply Hstep. }
  rewrite fold_left_over_map.
  rewrite (fold_left_ext_in _
             (fun s y =>
                s ++ String.concat ""
                       (map (fun x =>
                               if js_lt (read gray (y * width + x)) threshold
                               then "1" else "0") xs))).
  - rewrite fold_append. reflexivity.
  - intros s y Hy. now apply Hrow.
Qed.

Lemma walk_on_pixels_witness :
  extractBits readable_frame 120 120 128
  = String.concat ""
      (map
         (fun y =>
            String.concat ""
              (map
                 (fun x =>
                    if js_lt (read readable_frame (y * 120 + x)) 128
                    then "1" else "0")
                 (for_values
                    (120 / 2 - Z.min 100 (Z.min 120 120 / 10) / 2)
                    (120 / 2 + Z.min 100 (Z.min 120 120 / 10) / 2) 2)))
         (for_values
            (120 / 2 - Z.min 100 (Z.min 120 120 / 10) / 2)
            (120 / 2 + Z.min 100 (Z.min 120 120 / 10) / 2) 2)).
Proof.
  apply (walk_on_pixels readable_frame 120 120 128). reflexivity.
Defined.

(** ** The characters of the result *)

Lemma all_in_class_append (s1 s2 : string) :
  all_in_class (s1 ++ s2) = all_in_class s1 && all_in_class s2.
Proof.
  induction s1 as [|c s1 IH]; simpl; [reflexivity|].
  now rewrite IH, andb_assoc.
Qed.

Lemma all_in_class_drop (n : nat) :
  forall s, all_in_class s = true -> all_in_class (drop n s) = true.
Proof.
  induction n as [|n IH]; intros [|c s] Hs; simpl in *; try assumption.
  apply andb_true_iff in Hs. destruct Hs as [_ Hs]. now apply IH.
Qed.

Lemma in_class_digit_char (d : Z) :
  0 <= d < 10 -> in_class (digit_char d) = true.
Proof.
  intros Hd.
  assert (d = 0 \/ d = 1 \/ d = 2 \/ d = 3 \/ d = 4 \/ d = 5 \/ d = 6
          \/ d = 7 \/ d = 8 \/ d = 9) as Hcases by lia.
  repeat (destruct Hcases as [-> | Hcases]; [reflexivity|]).
  subst d. reflexivity.
Qed.

Lemma all_in_class_digits_onto (fuel : nat) :
  forall n acc,
    all_in_class acc = true -> all_in_class (digits_onto fuel n acc) = true.
Proof.
  induction fuel as [|fuel IH]; intros n acc Hacc; cbn [digits_onto].
  - cbn [all_in_class].
    now rewrite in_class_digit_char by (apply Z.mod_pos_bound; lia).
  - assert (all_in_class (String (digit_char (n mod 10)) acc) = true) as Hnext.
    { cbn [all_in_class].
      now rewrite in_class_digit_char by (apply Z.mod_pos_bound; lia). }
    destruct (n <? 10); [exact Hnext | now apply IH].
Qed.

Lemma all_in_class_toString (n : Z) : all_in_class (toString n) = true.
Proof.
  unfold toString, digits.
  destruct (n <? 0); [cbn [all_in_class]; rewrite andb_true_iff; split;
                      [reflexivity|] |];
    now apply all_in_class_digits_onto.
Qed.

Lemma all_in_class_join (l : list string) :
  Forall (fun s => all_in_class s = true) l ->
  all_in_class (String.concat "_" l) = true.
Proof.
  intros Hall. induction Hall as [|s l Hs Hl IH]; [reflexivity|].
  destruct l as [|s' l]; [exact Hs|].
  change (String.concat "_" (s :: s' :: l))
    with (s ++ "_" ++ String.concat "_" (s' :: l)).
  rewrite !all_in_class_append, Hs, IH. reflexivity.
Qed.

Lemma all_in_class_patternHash (patterns : list Pattern) :
  all_in_class (patternHash patterns) = true.
Proof.
  unfold patternHash. apply all_in_class_join.
  apply Forall_forall. intros s Hin.
  apply in_map_iff in Hin. destruct Hin as (p & <- & _).
  unfold formatPattern.
  rewrite !all_in_class_append, !all_in_class_toString. reflexivity.
Qed.

(** X16.  Whatever the frame and the clock, the data of a result consists
    of characters of [[A-Za-z0-9\-_]] only: the string read from the image
    passed that test, and the synthesised identifier is made of "QR",
    digits, "-" and "_". *)
Theorem detect_data_in_class
    (gray : list Z) (width height threshold now : Z) (r : DetectionResult) :
  detect gray width height threshold now = Some r ->
  all_in_class (data r) = true.
Proof.
  unfold detect.
  destruct (3 <=? List.length _)%nat; [|discriminate].
  destruct ((3 <? String.length _)%nat && regex_test _) eqn:Htest;
    intros [= <-]; cbn [data].
  - apply andb_true_iff in Htest. destruct Htest as [_ Hre].
    apply regex_test_class in Hre. apply Hre.
  - unfold fallbackId, slice_last.
    rewrite !all_in_class_append, all_in_class_patternHash.
    rewrite all_in_class_drop by apply all_in_class_toString.
    reflexivity.
Qed.

Lemma detect_data_in_class_witness :
  all_in_class (data (mkResult "QR_0-0_3-0_6-0_600123")) = true.
Proof.
  apply (detect_data_in_class small_frame 48 32 128 1793577600123).
  vm_compute. reflexivity.
Defined.

(** * The scanner component *)

(** ** The scan history *)

(** X17.  The history never holds more than five scans, and after any
    sequence of successful scans it holds the latest five (all of them when
    there are fewer), the newest first. *)
Theorem history_keeps_latest_five (results : list ScanResult) :
  historyAfter results = firstn 5 (rev results)
  /\ (List.length (historyAfter results) <= 5)%nat
  /\ (forall result prev,
        (List.length (pushHistory result prev) <= 5)%nat
        /\ hd_error (pushHistory result prev) = Some result).
Proof.
  assert (historyAfter results = firstn 5 (rev results)) as Hhist.
  { unfold historyAfter.
    induction results as [|result results IH] using rev_ind; [reflexivity|].
    rewrite fold_left_app, rev_app_distr. cbn [fold_left rev app].
    rewrite IH. unfold pushHistory.
    rewrite firstn_cons, firstn_firstn. reflexivity. }
  split; [exact Hhist|]. split.
  - rewrite Hhist. apply firstn_le_length.
  - intros result prev. split; [|reflexivity].
    unfold pushHistory. cbn [List.length].
    pose proof (firstn_le_length 4 prev). lia.
Qed.

(** ** The position hint *)

Lemma Qgt_bool_iff (a b : Q) : Qgt_bool a b = true <-> (b < a)%Q.
Proof.
  unfold Qgt_bool. rewrite negb_true_iff.
  split.
  - intros Hle. apply Qnot_le_lt. intros Hab.
    apply Qle_bool_iff in Hab. congruence.
  - intros Hlt. destruct (Qle_bool a b) eqn:Hle; [|reflexivity].
    apply Qle_bool_iff in Hle. exfalso. exact (Qlt_not_le _ _ Hlt Hle).
Qed.

Lemma Qgt_bool_false (a b : Q) : Qgt_bool a b = false <-> (a <= b)%Q.
Proof.
  unfold Qgt_bool. rewrite negb_false_iff. apply Qle_bool_iff.
Qed.

(** X18.  When the scan area is mounted, the hint is cleared exactly when
    the centre of the viewport lies within the scan area, sides included;
    otherwise it is one of the four messages, a horizontal one whenever a
    horizontal test passes; and the new hint does not depend on the old. *)
Theorem updatePositionHint_result
    (scanRect : DOMRect) (innerWidth innerHeight : Z)
    (positionHint : option string) :
  let x := (inject_Z innerWidth / 2)%Q in
  let y := (inject_Z innerHeight / 2)%Q in
  let hint :=
    updatePositionHint (Some scanRect) innerWidth innerHeight positionHint in
  (hint = None
   <-> (left scanRect <= x)%Q /\ (x <= right scanRect)%Q
       /\ (top scanRect <= y)%Q /\ (y <= bottom scanRect)%Q)
  /\ (forall name, hint = Some name ->
        In name ["Move left"; "Move right"; "Move up"; "Move down"])
  /\ ((x < left scanRect)%Q -> hint = Some "Move left")
  /\ ((left scanRect <= x)%Q -> (right scanRect < x)%Q ->
      hint = Some "Move right")
  /\ hint = updatePositionHint (Some scanRect) innerWidth innerHeight None.
Proof.
  intros x y hint. unfold hint, updatePositionHint. fold x y.
  cbn [find snd fst].
  destruct (Qgt_bool (left scanRect) x) eqn:Hl;
    [apply Qgt_bool_iff in Hl | apply Qgt_bool_false in Hl];
  (destruct (Qgt_bool x (right scanRect)) eqn:Hr;
    [apply Qgt_bool_iff in Hr | apply Qgt_bool_false in Hr]);
  (destruct (Qgt_bool (top scanRect) y) eqn:Ht;
    [apply Qgt_bool_iff in Ht | apply Qgt_bool_false in Ht]);
  (destruct (Qgt_bool y (bottom scanRect)) eqn:Hb;
    [apply Qgt_bool_iff in Hb | apply Qgt_bool_false in Hb]);
  (split; [split; [discriminate || (intros _; auto)
                  | intros (H1 & H2 & H3 & H4);
                    try reflexivity;
                    try (exfalso; exact (Qlt_not_le _ _ Hl H1));
                    try (exfalso; exact (Qlt_not_le _ _ Hr H2));
                    try (exfalso; exact (Qlt_not_le _ _ Ht H3));
                    try (exfalso; exact (Qlt_not_le _ _ Hb H4))]|]);
  (split; [intros name [= <-]; simpl; auto | ]);
  (split; [intros H; try reflexivity; exfalso; exact (Qlt_not_le _ _ H Hl)|]);
  (split; [intros H1 H2; try reflexivity;
           try (exfalso; exact (Qlt_not_le _ _ Hl H1));
           try (exfalso; exact (Qlt_not_le _ _ H2 Hr)) | reflexivity]).
Qed.

(** X19.  Every hint that [updatePositionHint] sets is rendered with exactly
    one arrow, the one of its direction. *)
Theorem position_hint_has_one_arrow
    (scanRect : DOMRect) (innerWidth innerHeight : Z)
    (positionHint : option string) (name : string) :
  updatePositionHint (Some scanRect) innerWidth innerHeight positionHint
  = Some name ->
  (name = "Move left" /\ arrows name = [true; false; false; false])
  \/ (name = "Move right" /\ arrows name = [false; true; false; false])
  \/ (name = "Move up" /\ arrows name = [false; false; true; false])
  \/ (name = "Move down" /\ arrows name = [false; false; false; true]).
Proof.
  unfold updatePositionHint. cbn [find snd fst].
  destruct (Qgt_bool (left scanRect) (inject_Z innerWidth / 2));
    [intros [= <-]; left; split; reflexivity|].
  destruct (Qgt_bool (inject_Z innerWidth / 2) (right scanRect));
    [intros [= <-]; right; left; split; reflexivity|].
  destruct (Qgt_bool (top scanRect) (inject_Z innerHeight / 2));
    [intros [= <-]; right; right; left; split; reflexivity|].
  destruct (Qgt_bool (inject_Z innerHeight / 2) (bottom scanRect));
    [intros [= <-]; right; right; right; split; reflexivity|].
  discriminate.
Qed.

Lemma position_hint_has_one_arrow_witness :
  ("Move right" = "Move left"
   /\ arrows "Move right" = [true; false; false; false])
  \/ ("Move right" = "Move right"
      /\ arrows "Move right" = [false; true; false; false])
  \/ ("Move right" = "Move up"
      /\ arrows "Move right" = [false; false; true; false])
  \/ ("Move right" = "Move down"
      /\ arrows "Move right" = [false; false; false; true]).
Proof.
  apply (position_hint_has_one_arrow
           (mkRect (100 # 1) (300 # 1) (50 # 1) (250 # 1)) 1280 720 None
           "Move right").
  reflexivity.
Defined.
